(** * prusaCam: time-lapse control, camera arbitration and the status cache

    A shallow embedding of the Go packages [prusaLinkClient] (the PrusaLink
    job-status client with its one-entry cache) and [camera] (the Raspberry Pi
    camera: snapshot path, time-lapse state machine, post-capture pipeline),
    followed by the properties checked against them.

    Conventions.
    - Go [int] values are [Z]; where an operation could leave the 64-bit
      range the wrap-around is written with [wrap64].
    - [float64] is Rocq's primitive binary64 float.
    - A Go [(T, error)] pair is a [result T].
    - [time.Time] is an instant counted in nanoseconds, the zero [Time] is 0.
    - Whatever the program learns from outside (HTTP answers, the file
      system, child processes, the clock) is an explicit environment argument.
    - A run-time panic and a call that never returns are outcomes of their
      own, never silently dropped. *)

From Stdlib Require Import ZArith List String Ascii Bool Lia PrimFloat DecimalString.
From Stdlib Require Import Sorted Permutation RelationClasses.
From Stdlib.Strings Require Import Byte.
Import ListNotations.
Local Open Scope string_scope.
Local Open Scope Z_scope.

(** ** Go basics *)

Inductive result (A : Type) : Type :=
| Ok (a : A)
| Err (msg : string).
Arguments Ok {A} a.
Arguments Err {A} msg.

Definition is_ok {A} (r : result A) : bool :=
  match r with Ok _ => true | Err _ => false end.

(** Two's complement wrap-around of a 64-bit [int]. *)
Definition wrap64 (z : Z) : Z := (z + 2 ^ 63) mod 2 ^ 64 - 2 ^ 63.

Definition in_int64 (z : Z) : Prop := - 2 ^ 63 <= z < 2 ^ 63.

(** The character of a decimal digit. *)
Definition digitChar (d : Z) : ascii := ascii_of_nat (48 + Z.to_nat d).

(** The decimal digits of [u >= 0] put in front of [acc], the last digit
    first, as [strconv] produces them.  A 64-bit number has at most twenty
    digits. *)
Fixpoint formatBits (fuel : nat) (u : Z) (acc : string) : string :=
  match fuel with
  | O => acc
  | S fuel' =>
      if u <? 10 then String (digitChar u) acc
      else formatBits fuel' (u / 10) (String (digitChar (u mod 10)) acc)
  end.

(** [strconv.Itoa], also the verb [%d] without flags. *)
Definition Itoa (z : Z) : string :=
  if z <? 0 then "-" ++ formatBits 20 (- z) EmptyString
  else formatBits 20 z EmptyString.

Fixpoint padding (c : ascii) (n : nat) : string :=
  match n with
  | O => EmptyString
  | S n' => String c (padding c n')
  end.

(** [fmt.Sprintf("%6d", z)]: right-justified in a field of six, filled with
    spaces. *)
Definition Sprintf_6d (z : Z) : string :=
  let s := Itoa z in padding " "%char (6 - String.length s) ++ s.

(** [fmt.Sprintf("%06d", z)]: the field of six is filled with zeros, which go
    between the sign and the digits. *)
Definition Sprintf_06d (z : Z) : string :=
  if z <? 0 then
    let s := Itoa (- z) in "-" ++ padding "0"%char (5 - String.length s) ++ s
  else
    let s := Itoa z in padding "0"%char (6 - String.length s) ++ s.

(** The six decimal digits of [n], the most significant first. *)
Definition digitsOf (n : Z) : list ascii :=
  [digitChar (n / 10 / 10 / 10 / 10 / 10 mod 10);
   digitChar (n / 10 / 10 / 10 / 10 mod 10);
   digitChar (n / 10 / 10 / 10 mod 10);
   digitChar (n / 10 / 10 mod 10);
   digitChar (n / 10 mod 10);
   digitChar (n mod 10)].

(** [strings.HasSuffix]. *)
Definition HasSuffix (s suffix : string) : bool :=
  let n := String.length s in
  let m := String.length suffix in
  (m <=? n)%nat && String.eqb (substring (n - m) m s) suffix.

(** [filepath.Join] of a directory and one element.  The library also cleans
    the joined path; on the paths met here (a directory made by
    [os.MkdirTemp], a name listed by [os.ReadDir]) cleaning changes nothing. *)
Definition filepath_Join (dir name : string) : string := dir ++ "/" ++ name.

(** ** Package prusaLinkClient *)

Module prusalinkclient.

Definition StatusIdle := "IDLE".
Definition StatusBusy := "BUSY".
Definition StatusPrinting := "PRINTING".
Definition StatusPaused := "PAUSED".
Definition StatusFinished := "FINISHED".
Definition StatusStopped := "STOPPED".
Definition StatusError := "ERROR".
Definition StatusAttention := "ATTENTION".
Definition StatusReady := "READY".

Record Status : Type := {
  Online : bool;
  JobID : Z;
  FileName : string;
  State : string;
  Progress : float
}.

(** The composite literal [Status{}]. *)
Definition zeroStatus : Status :=
  {| Online := false; JobID := 0; FileName := EmptyString;
     State := EmptyString; Progress := 0%float |}.

(** The cache fields of [client]; [cachedStatus = None] is the nil pointer. *)
Record client : Type := {
  cachedStatus : option Status;
  cachedTime : Z
}.

(** What [NewClient] builds: no cached status, the zero [time.Time]. *)
Definition NewClient : client := {| cachedStatus := None; cachedTime := 0 |}.

Definition second : Z := 1000000000.

Record jobResponse : Type := {
  ID : Z;
  resp_State : string;
  resp_Progress : float;
  File_DisplayName : string
}.

(** What one round trip to the printer can come to, in the order [jobStatus]
    meets it. *)
Inductive httpOutcome : Type :=
| NewRequestFailed
    (* http.NewRequestWithContext returned an error: nothing is sent *)
| DoFailed (deadlineExceeded : bool)
    (* httpClient.Do returned err; the flag is
       errors.Is(err, context.DeadlineExceeded) *)
| ReadAllFailed (code : Z)
    (* the headers arrived, io.ReadAll on the body failed *)
| Response (code : Z) (decoded : result jobResponse)
    (* status code and what json.Unmarshal makes of the body *).

(** Number of requests that reach the printer. *)
Definition remoteCalls (h : httpOutcome) : nat :=
  match h with
  | NewRequestFailed => 0
  | _ => 1
  end.

Definition parseJobResponse (decoded : result jobResponse) : result Status :=
  match decoded with
  | Err e => Err e
  | Ok resp =>
      Ok {| Online := true;
            JobID := ID resp;
            FileName := File_DisplayName resp;
            State := resp_State resp;
            Progress := resp_Progress resp |}
  end.

Definition jobStatus (h : httpOutcome) : result Status :=
  match h with
  | NewRequestFailed => Err "fail to create request"
  | DoFailed true =>
      (* printer offline (or misconfigured) *)
      Ok {| Online := false; JobID := 0; FileName := EmptyString;
            State := EmptyString; Progress := 0%float |}
  | DoFailed false => Err "fail to make request"
  | ReadAllFailed _ => Err "fail to read resp body"
  | Response code decoded =>
      if code =? 200 then parseJobResponse decoded
      else if code =? 204 then
        (* nothing in progress *)
        Ok {| Online := true; JobID := 0; FileName := EmptyString;
              State := StatusFinished; Progress := 0%float |}
      else Err "response status code"
  end.

Definition jobStatusToCache (c : client) (status : Status) (now : Z) : client :=
  {| cachedStatus := Some status; cachedTime := now |}.

(** [now] is the reading of [time.Now()] inside the call. *)
Definition jobStatusFromCache (c : client) (now : Z) : option Status * client :=
  let c' :=
    (* cache 10 seconds *)
    if cachedTime c <? now + 10 * second
    then {| cachedStatus := None; cachedTime := cachedTime c |}
    else c in
  (cachedStatus c', c').

(** The environment of one [JobStatus] call. *)
Record pollEnv : Type := {
  nowLookup : Z;        (* time.Now() in jobStatusFromCache *)
  http : httpOutcome;   (* the answer, should a request be made *)
  nowStore : Z          (* time.Now() in jobStatusToCache *)
}.

(** [JobStatus] returns the result, the client afterwards and the number of
    requests sent to the printer. *)
Definition JobStatus (c : client) (e : pollEnv) : result Status * client * nat :=
  match jobStatusFromCache c (nowLookup e) with
  | (Some st, c1) => (Ok st, c1, 0%nat)
  | (None, c1) =>
      match jobStatus (http e) with
      | Err msg => (Err msg, c1, remoteCalls (http e))
      | Ok st => (Ok st, jobStatusToCache c1 st (nowStore e), remoteCalls (http e))
      end
  end.

(** The status [jobStatus] builds when the printer has no job. *)
Definition noJobStatus : Status :=
  {| Online := true; JobID := 0; FileName := EmptyString; State := StatusFinished;
     Progress := 0%float |}.

(** *** Sample data *)

Definition printingResponse : httpOutcome :=
  Response 200
    (Ok {| ID := 17; resp_State := StatusPrinting; resp_Progress := 5%float;
           File_DisplayName := "bracket.gcode" |}).

Definition firstPoll : pollEnv :=
  {| nowLookup := 100 * second; http := printingResponse;
     nowStore := 100 * second |}.

(** One second later the printer would report that the job has ended. *)
Definition secondPoll : pollEnv :=
  {| nowLookup := 101 * second; http := Response 204 (Err "unexpected end of JSON input");
     nowStore := 101 * second |}.

Definition timedOutPoll : pollEnv :=
  {| nowLookup := 100 * second; http := DoFailed true; nowStore := 100 * second |}.

(** *** Sequences of calls *)

(** [JobStatus] called once per environment on the same client: the results
    in order, the client afterwards, the number of requests sent. *)
Fixpoint pollAll (c : client) (es : list pollEnv)
  : list (result Status) * client * nat :=
  match es with
  | [] => ([], c, 0%nat)
  | e :: es' =>
      let '(r, c1, n) := JobStatus c e in
      let '(rs, c2, m) := pollAll c1 es' in
      (r :: rs, c2, (n + m)%nat)
  end.

(** The readings of the clock in a sequence of calls never go back, [t0]
    being the last reading before it. *)
Fixpoint clockFrom (t0 : Z) (es : list pollEnv) : Prop :=
  match es with
  | [] => True
  | e :: es' =>
      t0 <= nowLookup e /\ nowLookup e <= nowStore e /\ clockFrom (nowStore e) es'
  end.

(** The requests a sequence of calls would send if none were served from the
    cache. *)
Fixpoint requests (es : list pollEnv) : nat :=
  match es with
  | [] => 0
  | e :: es' => remoteCalls (http e) + requests es'
  end.

End prusalinkclient.

(** ** Package camera *)

Module camera.
Import prusalinkclient.

Record TimelapseConfig : Type := {
  Enabled : bool;
  Interval : Z;
  Loglevel : string;
  VideoLenght : Z;
  OutputDir : string;
  MinFPS : Z
}.

(** One entry of an [os.ReadDir] listing: [Name()] and [Type().IsDir()]. *)
Record DirEntry : Type := {
  Name : string;
  IsDir : bool
}.

(** The session record [timelapse].  The two handles [timelapseStop] and
    [timelapseCommand] both stand for the capture process, named by its
    process id. *)
Record timelapse : Type := {
  currentDir : string;
  startTime : Z;
  jobID : Z;
  jobName_ : string;
  timelapseCommand : nat
}.

(** *** The world the camera code runs in *)

Inductive procKind : Type := Continuous | Still.

(** What the code does to the camera, the lock and the file system, in the
    order it does it. *)
Inductive event : Type :=
| EvLock                                  (* rpicamMutex.Lock() returned *)
| EvTryLock (acquired : bool)             (* rpicamMutex.TryLock() *)
| EvUnlock                                (* rpicamMutex.Unlock() *)
| EvSpawn (k : procKind) (pid : nat) (out : string)
                                          (* an rpicam-still process starts *)
| EvExit (pid : nat)                      (* it has been waited for *)
| EvCp (src dst : string)
| EvBuildVideo (tl : timelapse) (count : Z)  (* go c.buildVideo(...) *)
| EvReadFile (name : string).

(** [tlRunning] and [svc_timelapse] are the fields of [timelapseSvc]
    ([None] is the nil pointer), [rpicamMutex] is the package-level mutex
    ([true] when locked), [trace] is the log of events, newest first. *)
Record World : Type := {
  tlRunning : bool;
  svc_timelapse : option timelapse;
  rpicamMutex : bool;
  nextPid : nat;
  trace : list event
}.

(** [newTimelapse] leaves both session fields at their zero value. *)
Definition newWorld : World :=
  {| tlRunning := false; svc_timelapse := None; rpicamMutex := false;
     nextPid := 0; trace := [] |}.

(** A call returns, panics, or never returns. *)
Inductive outcome (A : Type) : Type :=
| Done (a : A) (w : World)
| Panicked (w : World)
| Hung (w : World).
Arguments Done {A} a w.
Arguments Panicked {A} w.
Arguments Hung {A} w.

Definition world_of {A} (o : outcome A) : World :=
  match o with
  | Done _ w => w
  | Panicked w => w
  | Hung w => w
  end.

Definition M (A : Type) : Type := World -> outcome A.

Definition ret {A} (a : A) : M A := fun w => Done a w.

Definition bind {A B} (m : M A) (k : A -> M B) : M B :=
  fun w =>
    match m w with
    | Done a w' => k a w'
    | Panicked w' => Panicked w'
    | Hung w' => Hung w'
    end.

Notation "x <- m ;; k" := (bind m (fun x => k))
  (at level 61, m at next level, right associativity).
Notation "m ;;; k" := (bind m (fun _ => k))
  (at level 61, right associativity).

Definition panic {A} : M A := fun w => Panicked w.

Definition hang {A} : M A := fun w => Hung w.

Definition emit (e : event) : M unit :=
  fun w =>
    Done tt {| tlRunning := tlRunning w; svc_timelapse := svc_timelapse w;
               rpicamMutex := rpicamMutex w; nextPid := nextPid w;
               trace := e :: trace w |}.

Definition setMutex (b : bool) : M unit :=
  fun w =>
    Done tt {| tlRunning := tlRunning w; svc_timelapse := svc_timelapse w;
               rpicamMutex := b; nextPid := nextPid w; trace := trace w |}.

(** [sync.Mutex.Lock]: waits for ever when nobody is left to unlock. *)
Definition Lock : M unit :=
  fun w => if rpicamMutex w then Hung w else (setMutex true ;;; emit EvLock) w.

Definition TryLock : M bool :=
  fun w =>
    if rpicamMutex w then (emit (EvTryLock false) ;;; ret false) w
    else (setMutex true ;;; emit (EvTryLock true) ;;; ret true) w.

(** [sync.Mutex.Unlock]: unlocking an unlocked mutex is a fatal error. *)
Definition Unlock : M unit :=
  fun w => if rpicamMutex w then (setMutex false ;;; emit EvUnlock) w else Panicked w.

(** Start a child process: a fresh process id. *)
Definition spawn (k : procKind) (out : string) : M nat :=
  fun w =>
    Done (nextPid w)
         {| tlRunning := tlRunning w; svc_timelapse := svc_timelapse w;
            rpicamMutex := rpicamMutex w; nextPid := S (nextPid w);
            trace := EvSpawn k (nextPid w) out :: trace w |}.

Definition setSession (running : bool) (tl : option timelapse) : M unit :=
  fun w =>
    Done tt {| tlRunning := running; svc_timelapse := tl;
               rpicamMutex := rpicamMutex w; nextPid := nextPid w;
               trace := trace w |}.

Definition getRunning : M bool := fun w => Done (tlRunning w) w.

Definition getSession : M (option timelapse) := fun w => Done (svc_timelapse w) w.

(** What one round of the wait loop of [startTimelapse] sees: the timer fires
    and the status is polled again, or the context is done. *)
Inductive waitEvent : Type :=
| TimerFired (polled : result Status)
| CtxDone.

(** Everything one call reads from outside. *)
Record Env : Type := {
  poll : result Status;                      (* c.prusalink.JobStatus(ctx) *)
  mkdirTemp : string -> result string;       (* os.MkdirTemp with an empty dir *)
  waitEvents : list waitEvent;               (* rounds of the wait loop *)
  cmdStart : bool;                           (* cmd.Start() gave no error *)
  now : Z;                                   (* time.Now() *)
  nowMicro : Z;                              (* time.Now().UnixMicro() *)
  readDir : string -> result (list DirEntry);(* os.ReadDir *)
  Sscanf_image6d : string -> result Z;       (* fmt.Sscanf(s, "image%6d.jpg", &id) *)
  stillRun : bool;                           (* rpicam-still --immediate gave no error *)
  cpRun : string -> string -> bool;          (* cp src dst gave no error *)
  readFile : string -> result (list byte)    (* os.ReadFile *)
}.

(** *** rpi_timelapse.go *)

(** timelapse should start only if printer is attention or printing state *)
Definition timelapseShouldStart (state : string) : bool :=
  String.eqb state StatusPrinting || String.eqb state StatusAttention.

(** timelapse should continue if printer also "paused" or "busy" *)
Definition timelapseShouldBeRunning (state : string) : bool :=
  timelapseShouldStart state || String.eqb state StatusPaused
  || String.eqb state StatusBusy.

Definition timelapseShouldStop (state : string) : bool :=
  String.eqb state StatusIdle ||
  String.eqb state StatusError ||
  String.eqb state StatusFinished ||
  String.eqb state StatusStopped ||
  String.eqb state StatusReady.

Definition jobName (f : Status) : string :=
  if negb (String.eqb (FileName f) EmptyString) then FileName f else Itoa (JobID f).

Definition shotFilename (dir : string) (id : Z) : string :=
  dir ++ "/image" ++ Sprintf_6d id ++ ".jpg".

(** The name the continuous capture gives its frame number [id]: the
    process is started with [-o tmpDir/image%06d.jpg]. *)
Definition captureFilename (dir : string) (id : Z) : string :=
  dir ++ "/image" ++ Sprintf_06d id ++ ".jpg".

(** How the wait loop of [startTimelapse] ends. *)
Inductive waitResult : Type :=
| Progressed (status : Status)
| Cancelled
| StillWaiting.

(** waiting till progress started (skipping calibration) *)
Fixpoint waitForProgress (status : Status) (evs : list waitEvent) : waitResult :=
  if PrimFloat.ltb 0%float (Progress status) then Progressed status
  else
    match evs with
    | [] => StillWaiting
    | CtxDone :: _ => Cancelled
    | TimerFired (Ok status') :: evs' => waitForProgress status' evs'
    | TimerFired (Err _) :: evs' =>
        (* avoiding panic *)
        waitForProgress zeroStatus evs'
    end.

(** The goroutine that, at log level debug, waits for the process to log
    its output is left out: it changes neither the session nor the lock. *)
Definition startTimelapse (e : Env) (status : Status) : M unit :=
  (* this function should be run with already locked mutex *)
  match mkdirTemp e ("timelapse" ++ Itoa (JobID status)) with
  | Err _ => ret tt
  | Ok tmpDir =>
      match waitForProgress status (waitEvents e) with
      | StillWaiting => hang
      | Cancelled => ret tt
      | Progressed status =>
          Lock ;;;
          (* defer rpicamMutex.Unlock() *)
          if cmdStart e then
            pid <- spawn Continuous (tmpDir ++ "/image%06d.jpg") ;;
            setSession true
              (Some {| startTime := now e;
                       currentDir := tmpDir;
                       jobID := JobID status;
                       jobName_ := jobName status;
                       timelapseCommand := pid |}) ;;;
            Unlock
          else Unlock
      end
  end.

(** How the scan of [lastTLShotInternal] ends. *)
Inductive scanResult : Type :=
| Found (name : string)
| NotFound
| IndexOutOfRange
| OutOfFuel.

(** The loop [for i := len(files) - 1; i >= 0; i++].  [i] never passes
    [len(files)], so it never leaves the range of [int]. *)
Fixpoint scanShots (files : list DirEntry) (i : Z) (fuel : nat) : scanResult :=
  match fuel with
  | O => OutOfFuel
  | S fuel' =>
      if i >=? 0 then
        match nth_error files (Z.to_nat i) with
        | None => IndexOutOfRange
        | Some f =>
            if negb (IsDir f) && HasSuffix (Name f) ".jpg" then Found (Name f)
            else scanShots files (i + 1) fuel'
        end
      else NotFound
  end.

Definition len {A} (l : list A) : Z := Z.of_nat (List.length l).

Definition lastTLShotInternal (e : Env) (dir : string) : M (result (string * Z)) :=
  match readDir e dir with
  | Err _ => ret (Err "fail to read timelapse dir")
  | Ok files =>
      (* searching from latest *)
      match scanShots files (len files - 1) (S (S (List.length files))) with
      | Found name => ret (Ok (filepath_Join dir name, len files))
      | NotFound => ret (Err "no timelapse shots found")
      | IndexOutOfRange => panic
      | OutOfFuel => hang
      end
  end.

Fixpoint dropSlashes (l : list ascii) : list ascii :=
  match l with
  | c :: l' => if Ascii.eqb c "/" then dropSlashes l' else l
  | [] => []
  end.

Fixpoint takeUntilSlash (l : list ascii) : list ascii :=
  match l with
  | c :: l' => if Ascii.eqb c "/" then [] else c :: takeUntilSlash l'
  | [] => []
  end.

(** [filepath.Base]: the last element of the path, trailing separators
    dropped; [.] for the empty path, [/] for a path of separators only. *)
Definition filepath_Base (path : string) : string :=
  if String.eqb path EmptyString then "."
  else
    match dropSlashes (rev (list_ascii_of_string path)) with
    | [] => "/"
    | r => string_of_list_ascii (rev (takeUntilSlash r))
    end.

Definition getShotID (e : Env) (name : string) : result Z :=
  Sscanf_image6d e (filepath_Base name).

(** The loop [for i := lastID; i < lastID+count+1; i++] of [takeLastShot],
    [hi] being [lastID+count+1].  [lastID] has at most six digits and [count]
    is a tenth of a slice length, so the sums stay in the range of [int]. *)
Fixpoint cpLoop (e : Env) (name dir : string) (i hi : Z) (fuel : nat)
  : M (result unit) :=
  match fuel with
  | O => hang
  | S fuel' =>
      if i <? hi then
        emit (EvCp name (shotFilename dir i)) ;;;
        if cpRun e name (shotFilename dir i)
        then cpLoop e name dir (i + 1) hi fuel'
        else ret (Err "fail to cp shot")
      else ret (Ok tt)
  end.

(** makes last shot (with printed thing) and make several copies to keep
    focus at it in the end *)
Definition takeLastShot (e : Env) (dir : string) (lastID count : Z)
  : M (result unit) :=
  let name := shotFilename dir lastID in
  Lock ;;;
  (* defer rpicamMutex.Unlock() *)
  pid <- spawn Still name ;;
  emit (EvExit pid) ;;;
  if negb (stillRun e) then
    Unlock ;;; ret (Err "fail to run rpicam-still")
  else
    r <- cpLoop e name dir lastID (lastID + count + 1)
           (S (Z.to_nat (count + 1))) ;;
    Unlock ;;;
    ret r.

Definition finishTimelapse (e : Env) : M unit :=
  s <- getSession ;;
  match s with
  | None => panic (* c.timelapse.jobID through a nil pointer *)
  | Some tl =>
      (* c.timelapse.timelapseStop(); c.timelapse.timelapseCommand.Wait() *)
      emit (EvExit (timelapseCommand tl)) ;;;
      r <- lastTLShotInternal e (currentDir tl) ;;
      match r with
      | Err _ => ret tt
      | Ok (name, count) =>
          match getShotID e name with
          | Err _ => ret tt
          | Ok id =>
              takeLastShot e (currentDir tl) id (Z.quot count 10) ;;;
              (* we still can do a timelapse *)
              emit (EvBuildVideo tl count) ;;;
              setSession false None
          end
      end
  end.

(** The frame rate [buildVideo] hands to the encoder; [None] is the panic of
    an integer division by zero. *)
Definition buildVideo_fps (config : TimelapseConfig) (count : Z) : option Z :=
  if VideoLenght config =? 0 then None
  else
    let fps := wrap64 (Z.quot count (VideoLenght config)) in
    Some (Z.max fps (MinFPS config)).

Definition handleTimelapse (e : Env) : M unit :=
  match poll e with
  | Err _ => ret tt
  | Ok status =>
      running <- getRunning ;;
      if negb running then
        if negb (Online status) then ret tt
        else if timelapseShouldStart (State status) then startTimelapse e status
        else ret tt
      else
        (* timelapse running *)
        if timelapseShouldStop (State status) then finishTimelapse e
        else ret tt
  end.

Definition isTimelapseRunning : M bool := getRunning.

Definition LastTLShot (e : Env) : M (result string) :=
  s <- getSession ;;
  match s with
  | None => ret (Err "something went wrong - timelapse doesn't exists")
  | Some tl =>
      r <- lastTLShotInternal e (currentDir tl) ;;
      match r with
      | Ok (name, _) => ret (Ok name)
      | Err msg => ret (Err msg)
      end
  end.

(** *** rpi_camera.go *)

(** runs CLI commant to take shot from camera and returns path to it *)
Definition takeShot (tmpDir : string) (e : Env) : M (result string) :=
  let name := filepath_Join tmpDir (Itoa (nowMicro e) ++ ".jpg") in
  acquired <- TryLock ;;
  if negb acquired then
    (* blocked, most likely by timelapse *)
    ret (Err "mutex is locked")
  else
    (* defer rpicamMutex.Unlock() *)
    pid <- spawn Still name ;;
    emit (EvExit pid) ;;;
    Unlock ;;;
    if stillRun e then ret (Ok name) else ret (Err "fail to run rpicam-still").

(** [tmpDir] is the field of [rpiCamera]. *)
Definition Snapshot (tmpDir : string) (e : Env) : M (result (list byte)) :=
  running <- isTimelapseRunning ;;
  r <- (if negb running then takeShot tmpDir e else LastTLShot e) ;;
  match r with
  | Err _ =>
      if negb running then ret (Err "fail to take shot")
      else ret (Err "fail to get last TL shot name")
  | Ok name =>
      emit (EvReadFile name) ;;;
      match readFile e name with
      | Err _ => ret (Err "fail to read shot")
      | Ok shot => ret (Ok shot)
      end
  end.

(** *** Runs of the service *)

(** The calls that reach the camera: a tick of the poll loop of
    [initTimelapse], or a [Snapshot]. *)
Inductive op : Type :=
| Tick (e : Env)
| Snap (e : Env).

Definition step (tmpDir : string) (o : op) : M unit :=
  match o with
  | Tick e => handleTimelapse e
  | Snap e => Snapshot tmpDir e ;;; ret tt
  end.

(** One call after the other: [handleTimelapse] holds the write lock of the
    service from the poll to its return and the accessors of [Snapshot] take
    its read lock.  The poll loop is a single goroutine, so a tick that panics
    ends the process and one that never returns ends the run; a panic under
    [Snapshot] ends that request only. *)
Fixpoint run (tmpDir : string) (ops : list op) (w : World) : World :=
  match ops with
  | [] => w
  | o :: ops' =>
      match step tmpDir o w with
      | Done _ w' => run tmpDir ops' w'
      | Hung w' => w'
      | Panicked w' =>
          match o with
          | Tick _ => w'
          | Snap _ => run tmpDir ops' w'
          end
      end
  end.

(** The capture processes running after a trace: started and not yet waited
    for. *)
Fixpoint live (t : list event) : list nat :=
  match t with
  | [] => []
  | EvSpawn _ pid _ :: t' => pid :: live t'
  | EvExit pid :: t' => List.remove Nat.eq_dec pid (live t')
  | _ :: t' => live t'
  end.

(** At every instant of the trace at most one capture process runs. *)
Fixpoint exclusive (t : list event) : bool :=
  match t with
  | [] => true
  | _ :: t' => (List.length (live t) <=? 1)%nat && exclusive t'
  end.

(** Whether the arbitration lock is held after a trace. *)
Fixpoint lockHeld (t : list event) : bool :=
  match t with
  | [] => false
  | EvLock :: _ => true
  | EvTryLock true :: _ => true
  | EvUnlock :: _ => false
  | _ :: t' => lockHeld t'
  end.

(** Every capture process of the trace was started with the lock held. *)
Fixpoint spawnsLocked (t : list event) : bool :=
  match t with
  | [] => true
  | EvSpawn _ _ _ :: t' => lockHeld t' && spawnsLocked t'
  | _ :: t' => spawnsLocked t'
  end.

(** The still captures running after a trace. *)
Fixpoint liveStill (t : list event) : list nat :=
  match t with
  | [] => []
  | EvSpawn Still pid _ :: t' => pid :: liveStill t'
  | EvExit pid :: t' => List.remove Nat.eq_dec pid (liveStill t')
  | _ :: t' => liveStill t'
  end.

(** At every instant at which a still capture runs the lock is held. *)
Fixpoint stillsLocked (t : list event) : bool :=
  match t with
  | [] => true
  | _ :: t' =>
      match liveStill t with
      | [] => true
      | _ :: _ => lockHeld t
      end && stillsLocked t'
  end.

(** A list of copies and nothing else. *)
Definition onlyCp (l : list event) : Prop :=
  Forall (fun ev => exists src dst, ev = EvCp src dst) l.

(** The world with another trace. *)
Definition withTrace (t : list event) (w : World) : World :=
  {| tlRunning := tlRunning w; svc_timelapse := svc_timelapse w;
     rpicamMutex := rpicamMutex w; nextPid := nextPid w; trace := t |}.

(** The session flag and the session record agree. *)
Definition session_inv (w : World) : Prop :=
  tlRunning w = true <-> svc_timelapse w <> None.

(** From [w] to [w'] flag and record stay in step, and a session of [w] is
    still the session of [w'] unless [w'] has none. *)
Definition keeps (w w' : World) : Prop :=
  session_inv w' /\
  (forall tl, svc_timelapse w = Some tl ->
     svc_timelapse w' = Some tl \/ svc_timelapse w' = None).

(** [w'] has the session fields of [w]. *)
Definition sameSession (w w' : World) : Prop :=
  tlRunning w' = tlRunning w /\ svc_timelapse w' = svc_timelapse w.

(** The number of sessions the service holds. *)
Definition sessions (w : World) : nat :=
  match svc_timelapse w with
  | Some _ => 1
  | None => 0
  end.

(** The lock is free, no still capture runs, and the trace so far is in
    order. *)
Record calm (w : World) : Prop := {
  calm_mutex : rpicamMutex w = false;
  calm_lock : lockHeld (trace w) = false;
  calm_no_still : liveStill (trace w) = [];
  calm_exclusive : exclusive (trace w) = true;
  calm_spawns : spawnsLocked (trace w) = true;
  calm_stills : stillsLocked (trace w) = true
}.

(** What holds of the world between two calls. *)
Record sound (w : World) : Prop := {
  sound_session : session_inv w;
  sound_calm : calm w;
  sound_live :
    live (trace w) = [] \/
    exists tl, svc_timelapse w = Some tl /\ live (trace w) = [timelapseCommand tl]
}.

(** *** Notions for the statements *)

(** The condition under which the scan accepts an entry. *)
Definition isShot (f : DirEntry) : bool :=
  negb (IsDir f) && HasSuffix (Name f) ".jpg".

(** The entry of the frame number [id] of the capture. *)
Definition frame (id : Z) : DirEntry :=
  {| Name := "image" ++ Sprintf_06d id ++ ".jpg"; IsDir := false |}.

(** The directory after the capture has written its first [n] frames, in
    the order of writing. *)
Definition framesWritten (n : nat) : list DirEntry :=
  map (fun k => frame (Z.of_nat k)) (seq 0 n).

(** The order of [os.ReadDir]: by file name. *)
Definition nameLt (f g : DirEntry) : Prop := String.ltb (Name f) (Name g) = true.

(** The destinations of the copies in a trace, oldest first. *)
Fixpoint cpTargets (t : list event) : list string :=
  match t with
  | [] => []
  | EvCp _ dst :: t' => (cpTargets t' ++ [dst])%list
  | _ :: t' => cpTargets t'
  end.

(** The number of videos handed to the encoder in a trace. *)
Fixpoint builds (t : list event) : nat :=
  match t with
  | [] => 0
  | EvBuildVideo _ _ :: t' => S (builds t')
  | _ :: t' => builds t'
  end.

(** *** Sample data *)

Definition idle : Status :=
  {| Online := true; JobID := 0; FileName := EmptyString;
     State := StatusIdle; Progress := 0%float |}.

Definition printing : Status :=
  {| Online := true; JobID := 17; FileName := "bracket.gcode";
     State := StatusPrinting; Progress := 5%float |}.

Definition finished : Status :=
  {| Online := true; JobID := 17; FileName := "bracket.gcode";
     State := StatusFinished; Progress := 100%float |}.

(** A reading of [image%6d.jpg] good enough for names the capture writes. *)
Definition sampleScan (s : string) : result Z :=
  if prefix "image" s && HasSuffix s ".jpg" then
    match NilZero.uint_of_string (substring 5 (String.length s - 9) s) with
    | Some u => Ok (Z.of_uint u)
    | None => Err "expected integer"
    end
  else Err "input does not match format".

(** An environment in which everything outside works: the poll returns [p],
    every directory lists [files], every file holds [content]. *)
Definition sampleEnv (p : result Status) (files : list DirEntry)
                     (content : list byte) : Env :=
  {| poll := p;
     mkdirTemp := fun pattern => Ok ("/tmp/" ++ pattern);
     waitEvents := [];
     cmdStart := true;
     now := 1000 * second;
     nowMicro := 1000000000;
     readDir := fun _ => Ok files;
     Sscanf_image6d := sampleScan;
     stillRun := true;
     cpRun := fun _ _ => true;
     readFile := fun _ => Ok content |}.

(** The world after the first tick of a print in progress. *)
Definition startedWorld : World :=
  run "/tmp/cam" [Tick (sampleEnv (Ok printing) [] [])] newWorld.

Definition notes : DirEntry := {| Name := "notes.txt"; IsDir := false |}.

(** The defaults of [initConfig]. *)
Definition defaultConfig : TimelapseConfig :=
  {| Enabled := true; Interval := 20; Loglevel := "info"; VideoLenght := 7;
     OutputDir := "~/timelapses/"; MinFPS := 12 |}.

(** *** More notions for the statements *)

(** The time-lapse capture processes started in a trace. *)
Fixpoint captures (t : list event) : nat :=
  match t with
  | [] => 0
  | EvSpawn Continuous _ _ :: t' => S (captures t')
  | _ :: t' => captures t'
  end.

(** The copies of a trace, source and destination, oldest first. *)
Fixpoint cpPairs (t : list event) : list (string * string) :=
  match t with
  | [] => []
  | EvCp src dst :: t' => (cpPairs t' ++ [(src, dst)])%list
  | _ :: t' => cpPairs t'
  end.

(** The lock is free and the captures started, the videos ordered and the
    session flag are in balance. *)
Definition balanced (w : World) : Prop :=
  rpicamMutex w = false /\
  captures (trace w) = (builds (trace w) + if tlRunning w then 1 else 0)%nat.

(** The calls that reach the camera: [newTimelapse] starts the poll loop of
    [initTimelapse] only when the time-lapse is enabled. *)
Definition isSnap (o : op) : bool :=
  match o with
  | Snap _ => true
  | Tick _ => false
  end.

Definition reaching (config : TimelapseConfig) (ops : list op) : list op :=
  if Enabled config then ops else filter isSnap ops.

(** What a tick must meet to start a session: an online printer in a state
    of START, the temporary directory [dir], progress seen with the status
    [st'], and a capture process that starts. *)
Definition startable (e : Env) (st st' : Status) (dir : string) : Prop :=
  poll e = Ok st /\ Online st = true /\
  timelapseShouldStart (State st) = true /\
  mkdirTemp e ("timelapse" ++ Itoa (JobID st)) = Ok dir /\
  waitForProgress st (waitEvents e) = Progressed st' /\
  cmdStart e = true.

(** The world after such a start. *)
Definition afterStart (e : Env) (st' : Status) (dir : string) (w : World) : World :=
  {| tlRunning := true;
     svc_timelapse :=
       Some {| currentDir := dir; startTime := now e; jobID := JobID st';
               jobName_ := jobName st'; timelapseCommand := nextPid w |};
     rpicamMutex := false;
     nextPid := S (nextPid w);
     trace := EvUnlock :: EvSpawn Continuous (nextPid w) (dir ++ "/image%06d.jpg")
              :: EvLock :: trace w |}.

(** What a tick must meet to end the session [tl]: a state of STOP, a
    listing [files] of the session's directory whose last entry [f] is a shot,
    and the number [id] read from its name. *)
Definition finishable (e : Env) (tl : timelapse) (st : Status)
                      (files : list DirEntry) (f : DirEntry) (id : Z) : Prop :=
  poll e = Ok st /\ timelapseShouldStop (State st) = true /\
  readDir e (currentDir tl) = Ok files /\
  (exists pre, files = (pre ++ [f])%list) /\ isShot f = true /\
  getShotID e (filepath_Join (currentDir tl) (Name f)) = Ok id.

(** The world after [takeLastShot] with the copies [cps], newest first. *)
Definition afterLastShot (name : string) (cps : list event) (w : World) : World :=
  {| tlRunning := tlRunning w;
     svc_timelapse := svc_timelapse w;
     rpicamMutex := false;
     nextPid := S (nextPid w);
     trace := EvUnlock
              :: (cps ++ EvExit (nextPid w) :: EvSpawn Still (nextPid w) name
                      :: EvLock :: trace w)%list |}.

(** The world after the session [tl] has ended with [count] entries in its
    directory. *)
Definition afterFinish (tl : timelapse) (count id : Z) (cps : list event)
                       (w : World) : World :=
  let w1 := afterLastShot (shotFilename (currentDir tl) id) cps
              (withTrace (EvExit (timelapseCommand tl) :: trace w) w) in
  {| tlRunning := false;
     svc_timelapse := None;
     rpicamMutex := false;
     nextPid := nextPid w1;
     trace := EvBuildVideo tl count :: trace w1 |}.

(** The name [buildVideo] gives the video, [unix] being
    [time.Now().Unix()]: the format [t%d-%s-%d.mp4]. *)
Definition videoName (unix : Z) (tl : timelapse) : string :=
  "t" ++ Itoa unix ++ "-" ++ jobName_ tl ++ "-" ++ Itoa (jobID tl) ++ ".mp4".

End camera.

(** ** Package service *)

Module service.
Import prusalinkclient camera.

(** What the PUT of a frame to PrusaConnect comes to, in the order
    [sendSnapshot] meets it. *)
Inductive putOutcome : Type :=
| PutNewRequestFailed
    (* http.NewRequest returned an error: nothing is sent *)
| PutDoFailed
    (* httpClient.Do returned an error *)
| PutResponse (code : Z) (bodyRead : bool)
    (* the status code; whether io.ReadAll on the body gave no error *).

(** The state of the service: the world of its camera, the status client
    (the one the camera polls with), and the frames handed to
    [httpClient.Do], newest first. *)
Record svcState : Type := {
  svcCam : World;
  svcLink : client;
  svcPuts : list (list byte)
}.

Inductive svcOutcome (A : Type) : Type :=
| SvcDone (a : A) (s : svcState)
| SvcPanicked (s : svcState)
| SvcHung (s : svcState).
Arguments SvcDone {A} a s.
Arguments SvcPanicked {A} s.
Arguments SvcHung {A} s.

Definition state_of {A} (o : svcOutcome A) : svcState :=
  match o with
  | SvcDone _ s | SvcPanicked s | SvcHung s => s
  end.

Definition withCam (w : World) (s : svcState) : svcState :=
  {| svcCam := w; svcLink := svcLink s; svcPuts := svcPuts s |}.

Definition withLink (c : client) (s : svcState) : svcState :=
  {| svcCam := svcCam s; svcLink := c; svcPuts := svcPuts s |}.

Definition sent (frame : list byte) (s : svcState) : svcState :=
  {| svcCam := svcCam s; svcLink := svcLink s; svcPuts := frame :: svcPuts s |}.

(** What [NewService] builds, [NewRPICamera] having made its directory. *)
Definition NewService : svcState :=
  {| svcCam := newWorld; svcLink := NewClient; svcPuts := [] |}.

(** Everything one [sendSnapshot] reads from outside. *)
Record sendEnv : Type := {
  camEnv : Env;                        (* what the camera meets *)
  put : list byte -> putOutcome        (* the PUT of the frame *)
}.

(** [svc.camera.Snapshot(ctx)], the camera being the one of
    [NewRPICamera] with its directory [tmpDir]. *)
Definition Snapshot (tmpDir : string) (e : Env) (s : svcState)
  : svcOutcome (result (list byte)) :=
  match camera.Snapshot tmpDir e (svcCam s) with
  | Done r w => SvcDone r (withCam w s)
  | Panicked w => SvcPanicked (withCam w s)
  | Hung w => SvcHung (withCam w s)
  end.

Definition sendSnapshot (tmpDir : string) (se : sendEnv) (s : svcState)
  : svcOutcome (result unit) :=
  match Snapshot tmpDir (camEnv se) s with
  | SvcDone (Err _) s1 => SvcDone (Err "fail to get frame") s1
  | SvcDone (Ok frame) s1 =>
      match put se frame with
      | PutNewRequestFailed => SvcDone (Err "fail to create request") s1
      | PutDoFailed => SvcDone (Err "fail to send request") (sent frame s1)
      | PutResponse _ _ => SvcDone (Ok tt) (sent frame s1)
      end
  | SvcPanicked s1 => SvcPanicked s1
  | SvcHung s1 => SvcHung s1
  end.

Definition ForceSend (tmpDir : string) (se : sendEnv) (s : svcState)
  : svcOutcome (result unit) :=
  sendSnapshot tmpDir se s.

(** One round of the loop of [prusaConnectSender], the timer having
    fired. *)
Definition senderRound (tmpDir : string) (pe : pollEnv) (se : sendEnv)
                       (s : svcState) : svcOutcome unit :=
  let s1 := withLink (snd (fst (JobStatus (svcLink s) pe))) s in
  match fst (fst (JobStatus (svcLink s) pe)) with
  | Err _ => SvcDone tt s1
  | Ok job =>
      if negb (Online job) then SvcDone tt s1
      else
        match sendSnapshot tmpDir se s1 with
        | SvcDone _ s2 => SvcDone tt s2
        | SvcPanicked s2 => SvcPanicked s2
        | SvcHung s2 => SvcHung s2
        end
  end.

(** The loop of [prusaConnectSender], one environment per round.  A panic
    in the loop's goroutine ends the process. *)
Fixpoint prusaConnectSender (tmpDir : string) (rounds : list (pollEnv * sendEnv))
                            (s : svcState) : svcState :=
  match rounds with
  | [] => s
  | (pe, se) :: rounds' =>
      match senderRound tmpDir pe se s with
      | SvcDone _ s' => prusaConnectSender tmpDir rounds' s'
      | SvcPanicked s' => s'
      | SvcHung s' => s'
      end
  end.

End service.

(** ** Package server *)

Module server.
Import prusalinkclient camera.

(** What a handler writes: the status code and, for a picture, the bytes
    sent with the content type [image/jpeg]. *)
Record answer : Type := {
  statusCode : Z;
  jpeg : option (list byte)
}.

Definition StatusInternalServerError : Z := 500.
Definition StatusNoContent : Z := 204.
Definition StatusOK : Z := 200.

(** The handler of [/snapshot]; the status code of a first [Write] is
    200. *)
Definition Snapshot (tmpDir : string) (e : Env) (s : service.svcState)
  : service.svcOutcome answer :=
  match service.Snapshot tmpDir e s with
  | service.SvcDone (Err _) s1 =>
      service.SvcDone {| statusCode := StatusInternalServerError; jpeg := None |} s1
  | service.SvcDone (Ok frame) s1 =>
      service.SvcDone {| statusCode := StatusOK; jpeg := Some frame |} s1
  | service.SvcPanicked s1 => service.SvcPanicked s1
  | service.SvcHung s1 => service.SvcHung s1
  end.

(** The handler of [/forcesend]. *)
Definition ForceSend (tmpDir : string) (se : service.sendEnv) (s : service.svcState)
  : service.svcOutcome answer :=
  match service.ForceSend tmpDir se s with
  | service.SvcDone (Err _) s1 =>
      service.SvcDone {| statusCode := StatusInternalServerError; jpeg := None |} s1
  | service.SvcDone (Ok _) s1 =>
      service.SvcDone {| statusCode := StatusNoContent; jpeg := None |} s1
  | service.SvcPanicked s1 => service.SvcPanicked s1
  | service.SvcHung s1 => service.SvcHung s1
  end.

End server.

(** ** Package camera, the USB camera *)

Module usbcamera.
Import camera.

Definition V4L2_PIX_FMT_PJPG : Z := 0x47504A50.
Definition V4L2_PIX_FMT_YUYV : Z := 0x56595559.

(** The map [supportedFormats]. *)
Definition supportedFormats : list (Z * bool) :=
  [(V4L2_PIX_FMT_PJPG, false); (V4L2_PIX_FMT_YUYV, true)].

(** Reading a map of booleans: a key it does not hold reads as [false]. *)
Fixpoint lookup (m : list (Z * bool)) (k : Z) : bool :=
  match m with
  | [] => false
  | (k', v) :: m' => if k =? k' then v else lookup m' k
  end.

(** The loop over [formatDesc], the list being the map's entries in the
    order the [range] meets them, which differs from run to run; the result
    is the zero format when the loop picks none. *)
Fixpoint pickFormat (formatDesc : list (Z * string)) : Z :=
  match formatDesc with
  | [] => 0
  | (f, _) :: rest => if lookup supportedFormats f then f else pickFormat rest
  end.

(** [webcam.FrameSize]; its fields are [uint32]. *)
Record FrameSize : Type := {
  MinWidth : Z;
  MaxWidth : Z;
  StepWidth : Z;
  MinHeight : Z;
  MaxHeight : Z;
  StepHeight : Z
}.

(** The product of [Less], taken in [uint32]. *)
Definition area (s : FrameSize) : Z := (MaxWidth s * MaxHeight s) mod 2 ^ 32.

(** For sorting purposes *)
Definition Less (a b : FrameSize) : bool := area a <? area b.

(** What [sort.Sort] leaves: the same sizes, none before one that is
    [Less]. *)
Definition sortedBy (sizes sorted : list FrameSize) : Prop :=
  Permutation sizes sorted /\ Sorted (fun a b => Less b a = false) sorted.

(** [sizes[len(sizes)-1]]; [None] is the panic of the index out of range. *)
Definition lastSize (sizes : list FrameSize) : option FrameSize :=
  match rev sizes with
  | [] => None
  | s :: _ => Some s
  end.

Record usbcamera : Type := {
  imageWidth : Z;
  imageHeight : Z;
  frame : option (list byte)     (* [None] is the nil slice *)
}.

(** The device behind [webcam.Open("/dev/video0")]. *)
Record device : Type := {
  Open : bool;                                  (* webcam.Open gave no error *)
  GetSupportedFormats : list (Z * string);      (* in the order of the range *)
  GetSupportedFrameSizes : Z -> list FrameSize;
  sort_Sort : list FrameSize -> list FrameSize; (* the slice after sort.Sort *)
  SetImageFormat : Z -> Z -> Z -> result (Z * Z * Z);
  StartStreaming : bool                         (* it gave no error *)
}.

(** [None] is a panic. *)
Definition NewUSBCamera (d : device) : option (result usbcamera) :=
  if negb (Open d) then Some (Err "fail to open camera")
  else
    let format := pickFormat (GetSupportedFormats d) in
    if format =? 0 then Some (Err "found no supported formats")
    else
      match lastSize (sort_Sort d (GetSupportedFrameSizes d format)) with
      | None => None
      | Some size =>
          match SetImageFormat d format (MaxWidth size) (MaxHeight size) with
          | Err _ => Some (Err "fail to set image format")
          | Ok (_, w, h) =>
              if negb (StartStreaming d) then Some (Err "fail to start streaming")
              else Some (Ok {| imageWidth := w; imageHeight := h; frame := None |})
          end
      end.

(** One round of [handleCamera]: the frame is replaced only when the wait
    and the read both succeed. *)
Definition handleCamera (waitOk : bool) (read : result (list byte))
                        (c : usbcamera) : usbcamera :=
  if negb waitOk then c
  else
    match read with
    | Err _ => c
    | Ok f => {| imageWidth := imageWidth c; imageHeight := imageHeight c;
                 frame := Some f |}
    end.

(** *** The picture *)

(** [image.YCbCr] with the ratio 4:2:2: the three planes and the size. *)
Record YCbCr : Type := {
  Y : list byte;
  Cb : list byte;
  Cr : list byte;
  Dx : Z;
  Dy : Z
}.

Definition maxInt : Z := 2 ^ 63 - 1.

(** [mul3NonNeg] of package [image]: the product, or [-1] when an argument
    is negative or a product leaves [int]. *)
Definition mul3NonNeg (x y z : Z) : Z :=
  if (x <? 0) || (y <? 0) || (z <? 0) then -1
  else if 2 ^ 64 <=? x * y then -1
  else if 2 ^ 64 <=? x * y * z then -1
  else if maxInt <? x * y * z then -1
  else x * y * z.

Definition add2NonNeg (x y : Z) : Z :=
  if (x <? 0) || (y <? 0) then -1
  else if maxInt <? x + y then -1
  else x + y.

(** [image.NewYCbCr(image.Rect(0, 0, width, height),
    image.YCbCrSubsampleRatio422)]: [Rect] swaps its corners where needed;
    the planes are zeroed; [None] is the panic on huge dimensions. *)
Definition NewYCbCr (width height : Z) : option YCbCr :=
  let minX := Z.min 0 width in
  let maxX := Z.max 0 width in
  let minY := Z.min 0 height in
  let maxY := Z.max 0 height in
  let w := maxX - minX in
  let h := maxY - minY in
  let cw := Z.quot (maxX + 1) 2 - Z.quot minX 2 in
  let ch := h in
  let totalLength := add2NonNeg (mul3NonNeg 1 w h) (mul3NonNeg 2 cw ch) in
  if totalLength <? 0 then None
  else
    Some {| Y := repeat x00%byte (Z.to_nat (w * h));
            Cb := repeat x00%byte (Z.to_nat (cw * ch));
            Cr := repeat x00%byte (Z.to_nat (cw * ch));
            Dx := w; Dy := h |}.

(** [s[i]] read and written; [None] is the panic of the index out of
    range. *)
Definition load (s : list byte) (i : Z) : option byte :=
  if i <? 0 then None else nth_error s (Z.to_nat i).

Fixpoint update (s : list byte) (n : nat) (v : byte) : list byte :=
  match s, n with
  | [], _ => []
  | _ :: s', O => v :: s'
  | x :: s', S n' => x :: update s' n' v
  end.

Definition store (s : list byte) (i : Z) (v : byte) : option (list byte) :=
  if (0 <=? i) && (i <? len s) then Some (update s (Z.to_nat i) v) else None.

(** The body of the loop of [encodeToImage].  The indices stay below four
    times the length of a slice, inside [int] for every slice that fits in
    memory. *)
Definition fillStep (frame : list byte) (img : YCbCr) (i : Z) : option YCbCr :=
  let ii := i * 4 in
  match load frame ii with
  | None => None
  | Some b0 =>
  match store (Y img) (i * 2) b0 with
  | None => None
  | Some y1 =>
  match load frame (ii + 2) with
  | None => None
  | Some b2 =>
  match store y1 (i * 2 + 1) b2 with
  | None => None
  | Some y2 =>
  match load frame (ii + 1) with
  | None => None
  | Some b1 =>
  match store (Cb img) i b1 with
  | None => None
  | Some cb =>
  match load frame (ii + 3) with
  | None => None
  | Some b3 =>
  match store (Cr img) i b3 with
  | None => None
  | Some cr =>
      Some {| Y := y2; Cb := cb; Cr := cr; Dx := Dx img; Dy := Dy img |}
  end end end end end end end end.

(** [for i := range yuyv.Cb], from [i] on, [n] rounds to go. *)
Fixpoint fill (frame : list byte) (img : YCbCr) (i : Z) (n : nat) : option YCbCr :=
  match n with
  | O => Some img
  | S n' =>
      match fillStep frame img i with
      | None => None
      | Some img' => fill frame img' (i + 1) n'
      end
  end.

(** [jpegEncode] is [jpeg.Encode] into the buffer; the nil slice is the
    empty list; [None] is a panic. *)
Definition encodeToImage (jpegEncode : YCbCr -> result (list byte))
                         (c : usbcamera) (frame : list byte)
  : option (result (list byte)) :=
  match NewYCbCr (imageWidth c) (imageHeight c) with
  | None => None
  | Some yuyv =>
      match fill frame yuyv 0 (List.length (Cb yuyv)) with
      | None => None
      | Some img =>
          match jpegEncode img with
          | Err _ => Some (Err "failed to encode jpeg")
          | Ok buf => Some (Ok buf)
          end
      end
  end.

Definition Snapshot (jpegEncode : YCbCr -> result (list byte)) (c : usbcamera)
  : option (result (list byte)) :=
  match frame c with
  | None => Some (Err "frame not yet available")
  | Some f => encodeToImage jpegEncode c f
  end.

(** The encoding of one round of the goroutine of [Stream]: the frame is
    not looked at before it is encoded. *)
Definition streamEncode (jpegEncode : YCbCr -> result (list byte)) (c : usbcamera)
  : option (result (list byte)) :=
  encodeToImage jpegEncode c match frame c with
                             | None => []
                             | Some f => f
                             end.

End usbcamera.

(** * Properties *)

(** ** Formatting *)

Module FormatProps.

Example Itoa_examples :
  Itoa 42 = "42" /\ Itoa 0 = "0" /\ Itoa (-7) = "-7" /\
  Itoa 9223372036854775807 = "9223372036854775807" /\
  Itoa (-9223372036854775808) = "-9223372036854775808".
Proof. repeat split; reflexivity. Qed.

Example Sprintf_examples :
  Sprintf_6d 42 = "    42" /\ Sprintf_06d 42 = "000042" /\
  Sprintf_06d (-42) = "-00042" /\ Sprintf_6d 1234567 = "1234567" /\
  Sprintf_6d (-42) = "   -42".
Proof. repeat split; reflexivity. Qed.

Ltac divlia := Z.to_euclidean_division_equations; lia.

Ltac digit_case k :=
  exists k; split; [lia|];
  cbn [skipn firstn string_of_list_ascii append];
  split; [do 2 f_equal; divlia|];
  split; [|split; intros ?; divlia];
  repeat constructor; change "0"%char with (digitChar 0); f_equal; divlia.

Lemma formatBits_six (n : Z) (acc : string) :
  0 <= n < 1000000 ->
  exists k, (k < 6)%nat /\
    formatBits 20 n acc = string_of_list_ascii (skipn k (digitsOf n)) ++ acc /\
    Forall (fun c => c = "0"%char) (firstn k (digitsOf n)) /\
    (n < 100000 -> (1 <= k)%nat) /\ (100000 <= n -> k = 0%nat).
Proof.
  intros Hn. unfold digitsOf. cbn [formatBits].
  destruct (Z.ltb_spec n 10); [digit_case 5%nat|].
  destruct (Z.ltb_spec (n / 10) 10); [digit_case 4%nat|].
  destruct (Z.ltb_spec (n / 10 / 10) 10); [digit_case 3%nat|].
  destruct (Z.ltb_spec (n / 10 / 10 / 10) 10); [digit_case 2%nat|].
  destruct (Z.ltb_spec (n / 10 / 10 / 10 / 10) 10); [digit_case 1%nat|].
  destruct (Z.ltb_spec (n / 10 / 10 / 10 / 10 / 10) 10); [digit_case 0%nat|].
  exfalso. divlia.
Qed.

Ltac format_cbn :=
  cbn [skipn firstn string_of_list_ascii append String.length Nat.sub padding].

Lemma Sprintf_06d_digits (n : Z) :
  0 <= n < 1000000 -> Sprintf_06d n = string_of_list_ascii (digitsOf n).
Proof.
  intros Hn. unfold Sprintf_06d, Itoa.
  destruct (Z.ltb_spec n 0) as [Hneg|_]; [lia|].
  destruct (formatBits_six n EmptyString Hn) as (k & Hk & -> & Hz & _ & _).
  unfold digitsOf in *.
  do 6 (destruct k as [|k];
        [format_cbn; cbn [firstn] in Hz;
         repeat (apply Forall_cons_iff in Hz; destruct Hz as [Hc Hz]; rewrite Hc; clear Hc);
         reflexivity|]).
  lia.
Qed.

Lemma Sprintf_6d_space (n : Z) :
  0 <= n < 100000 -> exists rest, Sprintf_6d n = String " " rest.
Proof.
  intros Hn. unfold Sprintf_6d, Itoa.
  destruct (Z.ltb_spec n 0) as [Hneg|_]; [lia|].
  destruct (formatBits_six n EmptyString) as (k & Hk & -> & _ & Hpos & _); [lia|].
  specialize (Hpos ltac:(lia)). unfold digitsOf.
  do 6 (destruct k as [|k]; [try lia; format_cbn; eexists; reflexivity|]).
  lia.
Qed.

Lemma ascii_compare_refl (c : ascii) : Ascii.compare c c = Eq.
Proof. unfold Ascii.compare. apply N.compare_refl. Qed.

Lemma compare_refl (s : string) : String.compare s s = Eq.
Proof.
  induction s as [|c s IH]; cbn; [reflexivity|].
  now rewrite ascii_compare_refl.
Qed.

Lemma ascii_compare_trans (x y z : ascii) :
  Ascii.compare x y = Lt -> Ascii.compare y z = Lt -> Ascii.compare x z = Lt.
Proof.
  unfold Ascii.compare. rewrite !N.compare_lt_iff. apply N.lt_trans.
Qed.

(** The order on strings is transitive. *)
Lemma compare_trans (a b c : string) :
  String.compare a b = Lt -> String.compare b c = Lt -> String.compare a c = Lt.
Proof.
  revert b c. induction a as [|x a IH]; intros [|y b] [|z c]; cbn;
    try discriminate; try reflexivity.
  destruct (Ascii.compare x y) eqn:Exy; try discriminate;
    destruct (Ascii.compare y z) eqn:Eyz; try discriminate; intros Hab Hbc.
  - apply Ascii.compare_eq_iff in Exy, Eyz. subst.
    rewrite ascii_compare_refl. now apply IH with b.
  - apply Ascii.compare_eq_iff in Exy. subst. now rewrite Eyz.
  - apply Ascii.compare_eq_iff in Eyz. subst. now rewrite Exy.
  - now rewrite (ascii_compare_trans x y z).
Qed.

Lemma compare_prefix (p x y : string) :
  String.compare (p ++ x) (p ++ y) = String.compare x y.
Proof.
  induction p as [|c p IH]; cbn; [reflexivity|].
  now rewrite ascii_compare_refl.
Qed.

Lemma digit_compare (a b : Z) :
  0 <= a <= 9 -> 0 <= b <= 9 ->
  Ascii.compare (digitChar a) (digitChar b) = (a ?= b).
Proof.
  intros Ha Hb.
  assert (Ea : a = 0 \/ a = 1 \/ a = 2 \/ a = 3 \/ a = 4 \/ a = 5 \/ a = 6 \/
               a = 7 \/ a = 8 \/ a = 9) by lia.
  assert (Eb : b = 0 \/ b = 1 \/ b = 2 \/ b = 3 \/ b = 4 \/ b = 5 \/ b = 6 \/
               b = 7 \/ b = 8 \/ b = 9) by lia.
  clear Ha Hb.
  repeat (destruct Ea as [->|Ea]); try subst a;
    repeat (destruct Eb as [->|Eb]); try subst b; reflexivity.
Qed.

Lemma digit_bound (x : Z) : 0 <= x mod 10 <= 9.
Proof. pose proof (Z.mod_pos_bound x 10). lia. Qed.

Lemma digits_value (n : Z) :
  0 <= n < 1000000 ->
  n = 100000 * (n / 10 / 10 / 10 / 10 / 10 mod 10)
      + 10000 * (n / 10 / 10 / 10 / 10 mod 10)
      + 1000 * (n / 10 / 10 / 10 mod 10)
      + 100 * (n / 10 / 10 mod 10)
      + 10 * (n / 10 mod 10)
      + n mod 10.
Proof. intros Hn. divlia. Qed.

(** Six digits compare as the numbers they write. *)
Lemma digits_compare (i j : Z) (s : string) :
  0 <= i < 1000000 -> 0 <= j < 1000000 -> i < j ->
  String.compare (string_of_list_ascii (digitsOf i) ++ s)
                 (string_of_list_ascii (digitsOf j) ++ s) = Lt.
Proof.
  intros Hi Hj Hlt.
  pose proof (digits_value i Hi) as Ei. pose proof (digits_value j Hj) as Ej.
  pose proof (digit_bound (i / 10 / 10 / 10 / 10 / 10)).
  pose proof (digit_bound (i / 10 / 10 / 10 / 10)).
  pose proof (digit_bound (i / 10 / 10 / 10)).
  pose proof (digit_bound (i / 10 / 10)).
  pose proof (digit_bound (i / 10)).
  pose proof (digit_bound i).
  pose proof (digit_bound (j / 10 / 10 / 10 / 10 / 10)).
  pose proof (digit_bound (j / 10 / 10 / 10 / 10)).
  pose proof (digit_bound (j / 10 / 10 / 10)).
  pose proof (digit_bound (j / 10 / 10)).
  pose proof (digit_bound (j / 10)).
  pose proof (digit_bound j).
  unfold digitsOf. cbn [string_of_list_ascii append String.compare].
  rewrite !digit_compare by apply digit_bound.
  repeat match goal with
         | |- context [(?x mod 10 ?= ?y mod 10)] =>
             let E := fresh "E" in
             destruct (Z.compare_spec (x mod 10) (y mod 10)) as [E|E|E];
             [rewrite E in * | reflexivity | exfalso; lia]
         end.
  exfalso. lia.
Qed.

End FormatProps.

(** ** The status cache *)

Module CacheProps.
Import prusalinkclient.

(** The lookup drops the entry whenever it was stored less than ten seconds
    after the present reading of the clock, so an entry stored in the past
    never survives a lookup. *)
Lemma jobStatusFromCache_evicts (c : client) (now : Z) :
  cachedTime c < now + 10 * second ->
  jobStatusFromCache c now =
    (None, {| cachedStatus := None; cachedTime := cachedTime c |}).
Proof.
  intros Hlt. unfold jobStatusFromCache.
  apply Z.ltb_lt in Hlt. rewrite Hlt. reflexivity.
Qed.

(** Hence a poll made no earlier than the entry was stored always asks. *)
Lemma JobStatus_always_asks (c : client) (e : pollEnv) :
  cachedTime c <= nowLookup e ->
  snd (JobStatus c e) = remoteCalls (http e) /\
  fst (fst (JobStatus c e)) = jobStatus (http e).
Proof.
  intros Hle. unfold JobStatus.
  rewrite jobStatusFromCache_evicts by (unfold second; lia).
  destruct (jobStatus (http e)); split; reflexivity.
Qed.

(** C3, evaluated on two polls one second apart: the first succeeds and is
    stored, yet the second is not served from the cache.  It sends a request
    of its own and returns what the printer says then, which differs from the
    first result. *)
Theorem second_poll_within_ttl_asks_again :
  let '(r1, c1, n1) := JobStatus NewClient firstPoll in
  let '(r2, c2, n2) := JobStatus c1 secondPoll in
  is_ok r1 = true /\ cachedStatus c1 <> None /\
  nowLookup secondPoll < cachedTime c1 + 10 * second /\
  n1 = 1%nat /\ n2 = 1%nat /\ r2 <> r1 /\
  fst (jobStatusFromCache c1 (nowLookup secondPoll)) = None.
Proof.
  vm_compute. repeat split; try discriminate; reflexivity.
Qed.

(** C4: a request that ends on its deadline makes [jobStatus] return the
    status [{Online: false}] with every other field at its zero value and no
    error; [JobStatus] returns no error either, and whenever it did send the
    request it returns that very status. *)
Theorem timeout_yields_offline (c : client) (e : pollEnv) :
  http e = DoFailed true ->
  jobStatus (http e) = Ok zeroStatus /\
  (exists st, fst (fst (JobStatus c e)) = Ok st) /\
  (snd (JobStatus c e) = 1%nat -> fst (fst (JobStatus c e)) = Ok zeroStatus).
Proof.
  intros Hh. rewrite Hh. split; [reflexivity|].
  unfold JobStatus. rewrite Hh.
  destruct (jobStatusFromCache c (nowLookup e)) as [[st|] c1]; cbn.
  - split; [eauto | discriminate].
  - split; [eauto | reflexivity].
Qed.

Lemma timeout_yields_offline_witness :
  http timedOutPoll = DoFailed true /\
  fst (fst (JobStatus NewClient timedOutPoll)) = Ok zeroStatus.
Proof.
  split; [reflexivity|].
  apply (timeout_yields_offline NewClient timedOutPoll); reflexivity.
Defined.

End CacheProps.

(** ** The post-capture pipeline *)

Module PipelineProps.
Import prusalinkclient camera.

Lemma wrap64_small (z : Z) : in_int64 z -> wrap64 z = z.
Proof.
  unfold in_int64, wrap64. intros Hz.
  rewrite Z.mod_small by lia. lia.
Qed.

(** C9: for positive frame count, video length and minimum rate the frame
    rate handed to the encoder is the larger of [floor(count / length)] and
    the minimum rate. *)
Theorem fps_is_max_of_floor (config : TimelapseConfig) (count : Z) :
  0 < count -> 0 < VideoLenght config -> 0 < MinFPS config ->
  in_int64 count -> in_int64 (VideoLenght config) -> in_int64 (MinFPS config) ->
  buildVideo_fps config count =
    Some (Z.max (count / VideoLenght config) (MinFPS config)).
Proof.
  intros Hc Hv Hm Rc Rv Rm. unfold buildVideo_fps.
  destruct (Z.eqb_spec (VideoLenght config) 0) as [E|_]; [lia|].
  rewrite Z.quot_div_nonneg by lia.
  rewrite wrap64_small; [reflexivity|].
  unfold in_int64 in *.
  assert (0 <= count / VideoLenght config) by (apply Z.div_pos; lia).
  assert (count / VideoLenght config <= count)
    by (apply Z.div_le_upper_bound; nia).
  lia.
Qed.

Lemma fps_is_max_of_floor_witness : buildVideo_fps defaultConfig 240 = Some 34.
Proof.
  apply (fps_is_max_of_floor defaultConfig 240);
    unfold in_int64; cbn; lia.
Defined.

Lemma len_app_one {A} (pre : list A) (f : A) : len (pre ++ [f]) - 1 = len pre.
Proof. unfold len. rewrite length_app. cbn. lia. Qed.

(** The scan looks at the last entry and, if that is no shot, at the index
    after it. *)
Lemma scanShots_last (pre : list DirEntry) (f : DirEntry) (fuel : nat) :
  scanShots (pre ++ [f]) (len (pre ++ [f]) - 1) (S (S fuel)) =
    if isShot f then Found (Name f) else IndexOutOfRange.
Proof.
  rewrite len_app_one. unfold len. cbn [scanShots].
  destruct (Z.geb_spec (Z.of_nat (List.length pre)) 0) as [_|Hneg]; [|lia].
  rewrite Nat2Z.id, nth_error_app2, Nat.sub_diag by lia. cbn [nth_error].
  unfold isShot.
  destruct (negb (IsDir f) && HasSuffix (Name f) ".jpg"); [reflexivity|].
  destruct (Z.geb_spec (Z.of_nat (List.length pre) + 1) 0) as [_|Hneg]; [|lia].
  replace (Z.to_nat (Z.of_nat (List.length pre) + 1)) with (S (List.length pre)) by lia.
  assert (Hnone : nth_error (pre ++ [f]) (S (List.length pre)) = None).
  { apply nth_error_None. rewrite length_app. cbn. lia. }
  rewrite Hnone. reflexivity.
Qed.

(** The scan never runs out of fuel: it ends within two rounds. *)
Lemma scanShots_total (files : list DirEntry) :
  scanShots files (len files - 1) (S (S (List.length files))) <> OutOfFuel.
Proof.
  induction files as [|f pre _] using rev_ind.
  - discriminate.
  - rewrite scanShots_last. destruct (isShot f); discriminate.
Qed.

(** C6, evaluated: with a shot followed by another file the scan indexes
    past the end of the listing and panics where the shot was to be returned,
    and with no shot at all it panics where an error was to be returned. *)
Theorem scan_indexes_past_last_entry (w : World) :
  scanShots [frame 1; notes] 1 4 = IndexOutOfRange /\
  lastTLShotInternal (sampleEnv (Ok finished) [frame 1; notes] [])
                     "/tmp/timelapse17" w = Panicked w /\
  lastTLShotInternal (sampleEnv (Ok finished) [notes] [])
                     "/tmp/timelapse17" w = Panicked w.
Proof. repeat split; reflexivity. Qed.

Lemma length_append (a b : string) :
  String.length (a ++ b) = (String.length a + String.length b)%nat.
Proof. induction a as [|c a IH]; cbn; [reflexivity | now rewrite IH]. Qed.

Lemma substring_whole (b : string) : substring 0 (String.length b) b = b.
Proof. induction b as [|c b IH]; cbn; [reflexivity | now rewrite IH]. Qed.

Lemma substring_skip (a b : string) :
  substring (String.length a) (String.length b) (a ++ b) = b.
Proof. induction a as [|c a IH]; cbn; [apply substring_whole | exact IH]. Qed.

Lemma HasSuffix_app (a b : string) : HasSuffix (a ++ b) b = true.
Proof.
  unfold HasSuffix. rewrite length_append.
  replace (String.length a + String.length b - String.length b)%nat
    with (String.length a) by lia.
  rewrite substring_skip, String.eqb_refl, andb_true_r.
  apply Nat.leb_le. lia.
Qed.

Lemma append_assoc (a b c : string) : (a ++ b) ++ c = a ++ b ++ c.
Proof. induction a as [|x a IH]; cbn; [reflexivity | now rewrite IH]. Qed.

(** Every frame the capture writes is accepted by the scan. *)
Lemma isShot_frame (id : Z) : isShot (frame id) = true.
Proof.
  unfold isShot, frame. cbn [IsDir Name negb andb].
  rewrite <- append_assoc. apply HasSuffix_app.
Qed.

(** Up to a million frames, the names of the frames are in the order of
    their numbers. *)
Lemma frame_name_lt (i j : Z) :
  0 <= i -> i < j -> j < 1000000 -> nameLt (frame i) (frame j).
Proof.
  intros Hi Hlt Hj. unfold nameLt, frame, String.ltb. cbn [Name].
  rewrite (FormatProps.compare_prefix "image").
  rewrite !FormatProps.Sprintf_06d_digits by lia.
  rewrite FormatProps.digits_compare by lia. reflexivity.
Qed.

Lemma map_seq_sorted (start n : nat) :
  Z.of_nat start + Z.of_nat n <= 1000000 ->
  Sorted nameLt (map (fun k => frame (Z.of_nat k)) (seq start n)).
Proof.
  revert start. induction n as [|n IH]; intros start Hle; cbn [seq map].
  - constructor.
  - constructor; [apply IH; lia|].
    destruct n as [|n]; cbn [seq map]; constructor.
    apply frame_name_lt; lia.
Qed.

(** So a listing sorted by name shows them in the order of writing. *)
Lemma framesWritten_sorted (n : nat) :
  Z.of_nat n <= 1000000 -> Sorted nameLt (framesWritten n).
Proof. intros Hn. apply map_seq_sorted. lia. Qed.

Lemma nameLt_trans : Transitive nameLt.
Proof.
  intros f g h. unfold nameLt, String.ltb.
  destruct (String.compare (Name f) (Name g)) eqn:Efg; try discriminate.
  destruct (String.compare (Name g) (Name h)) eqn:Egh; try discriminate.
  now rewrite (FormatProps.compare_trans _ _ _ Efg Egh).
Qed.

Lemma nameLt_irrefl (f : DirEntry) : ~ nameLt f f.
Proof.
  unfold nameLt, String.ltb. rewrite FormatProps.compare_refl. discriminate.
Qed.

Lemma StronglySorted_last (pre : list DirEntry) (l : DirEntry) :
  StronglySorted nameLt (pre ++ [l])%list -> Forall (fun f => nameLt f l) pre.
Proof.
  induction pre as [|a pre IH]; cbn; intros Hs; [constructor|].
  apply StronglySorted_inv in Hs as [Hs Ha].
  constructor; [|now apply IH].
  rewrite Forall_forall in Ha. apply Ha, in_or_app. right. now left.
Qed.

(** A listing in the order of [os.ReadDir] that holds the first [n + 1]
    frames of the capture, not more than a million, ends with the frame
    written last. *)
Lemma sorted_listing_ends_with_newest (files : list DirEntry) (n : nat) :
  Sorted nameLt files ->
  Permutation files (framesWritten (S n)) ->
  Z.of_nat n < 1000000 ->
  exists pre, files = (pre ++ [frame (Z.of_nat n)])%list.
Proof.
  intros Hsorted Hperm Hn.
  assert (Hne : files <> []).
  { intros ->. apply Permutation_nil in Hperm. discriminate. }
  destruct (exists_last Hne) as (pre & l & ->).
  apply Sorted_StronglySorted in Hsorted; [|exact nameLt_trans].
  apply StronglySorted_last in Hsorted. rewrite Forall_forall in Hsorted.
  assert (Hl : In l (framesWritten (S n))).
  { apply (Permutation_in _ Hperm), in_or_app. right. now left. }
  assert (Hnew : In (frame (Z.of_nat n)) (pre ++ [l])%list).
  { apply (Permutation_in _ (Permutation_sym Hperm)).
    unfold framesWritten. apply in_map_iff. exists n. split; [reflexivity|].
    apply in_seq. lia. }
  unfold framesWritten in Hl. apply in_map_iff in Hl as (k & <- & Hk).
  apply in_seq in Hk.
  destruct (Nat.eq_dec k n) as [->|Hkn]; [now exists pre|].
  exfalso.
  assert (Hlt : nameLt (frame (Z.of_nat k)) (frame (Z.of_nat n)))
    by (apply frame_name_lt; lia).
  apply in_app_or in Hnew as [Hin|[Heq|[]]].
  - apply (nameLt_irrefl (frame (Z.of_nat n))).
    now apply nameLt_trans with (frame (Z.of_nat k)); [apply Hsorted|].
  - rewrite Heq in Hlt. now apply nameLt_irrefl in Hlt.
Qed.

Lemma space_before_digit (d : Z) :
  0 <= d <= 9 -> Ascii.compare " " (digitChar d) = Lt.
Proof.
  intros Hd.
  assert (E : d = 0 \/ d = 1 \/ d = 2 \/ d = 3 \/ d = 4 \/ d = 5 \/ d = 6 \/
              d = 7 \/ d = 8 \/ d = 9) by lia.
  repeat (destruct E as [->|E]); try subst d; reflexivity.
Qed.

(** Below 100000 the name [shotFilename] builds is not the name of a frame
    of the capture, and it sorts before all of them. *)
Lemma shotFilename_sorts_first (dir : string) (id k : Z) :
  0 <= id < 100000 -> 0 <= k < 1000000 ->
  String.ltb (shotFilename dir id) (captureFilename dir k) = true /\
  shotFilename dir id <> captureFilename dir id.
Proof.
  intros Hid Hk.
  assert (Hlt : forall k', 0 <= k' < 1000000 ->
            String.compare (shotFilename dir id) (captureFilename dir k') = Lt).
  { intros k' Hk'. unfold shotFilename, captureFilename.
    rewrite (FormatProps.compare_prefix dir), (FormatProps.compare_prefix "/image").
    destruct (FormatProps.Sprintf_6d_space id Hid) as [rest ->].
    rewrite FormatProps.Sprintf_06d_digits by lia. unfold digitsOf.
    cbn [string_of_list_ascii append String.compare].
    rewrite space_before_digit by apply FormatProps.digit_bound. reflexivity. }
  split.
  - unfold String.ltb. rewrite (Hlt k Hk). reflexivity.
  - intros Heq. specialize (Hlt id ltac:(lia)). rewrite Heq in Hlt.
    assert (Hrefl : String.compare (captureFilename dir id) (captureFilename dir id) = Eq)
      by apply FormatProps.compare_refl.
    congruence.
Qed.

(** From 100000 on the two formats agree. *)
Lemma shotFilename_six_digits (dir : string) (id : Z) :
  100000 <= id < 1000000 -> shotFilename dir id = captureFilename dir id.
Proof.
  intros Hid. unfold shotFilename, captureFilename, Sprintf_6d, Sprintf_06d, Itoa.
  destruct (Z.ltb_spec id 0) as [Hneg|_]; [lia|].
  destruct (FormatProps.formatBits_six id EmptyString) as (k & _ & -> & _ & _ & Hk);
    [lia|].
  rewrite (Hk ltac:(lia)). reflexivity.
Qed.

(** C8, evaluated: the hero frame and its copies are named with the number
    padded by spaces, not by zeros, so they are not names of the capture's
    numbering and sort before every captured frame. *)
Theorem hero_frame_names_space_padded :
  shotFilename "/tmp/timelapse17" 41 = "/tmp/timelapse17/image    41.jpg" /\
  captureFilename "/tmp/timelapse17" 41 = "/tmp/timelapse17/image000041.jpg" /\
  cpTargets (trace (world_of
    (takeLastShot (sampleEnv (Ok finished) [] []) "/tmp/timelapse17" 41 2 newWorld))) =
    ["/tmp/timelapse17/image    41.jpg"; "/tmp/timelapse17/image    42.jpg";
     "/tmp/timelapse17/image    43.jpg"] /\
  String.ltb (shotFilename "/tmp/timelapse17" 43)
             (captureFilename "/tmp/timelapse17" 0) = true.
Proof. repeat split; reflexivity. Qed.

End PipelineProps.

(** ** The state machine and the arbitration lock *)

Module MachineProps.
Import prusalinkclient camera.

Lemma remove_single (p : nat) : List.remove Nat.eq_dec p [p] = [].
Proof. cbn. destruct (Nat.eq_dec p p); [reflexivity | contradiction]. Qed.

Lemma exclusive_live (t : list event) :
  exclusive t = true -> (List.length (live t) <= 1)%nat.
Proof.
  destruct t as [|ev t]; cbn [exclusive]; intros H.
  - cbn. lia.
  - apply andb_prop in H as [H _]. now apply Nat.leb_le in H.
Qed.

(** Copies leave the camera and the lock alone. *)
Lemma onlyCp_frame (cps t : list event) :
  onlyCp cps ->
  live (cps ++ t)%list = live t /\
  liveStill (cps ++ t)%list = liveStill t /\
  lockHeld (cps ++ t)%list = lockHeld t /\
  spawnsLocked (cps ++ t)%list = spawnsLocked t /\
  (exclusive t = true -> exclusive (cps ++ t)%list = true) /\
  (liveStill t = [] -> stillsLocked t = true ->
   stillsLocked (cps ++ t)%list = true).
Proof.
  induction 1 as [|ev cps [src [dst ->]] _ IH]; cbn.
  - tauto.
  - destruct IH as (Hl & Hq & Hk & Hs & He & Ht). repeat split; try assumption.
    + intros Hx. rewrite Hl, (He Hx), andb_true_r.
      apply Nat.leb_le. now apply exclusive_live.
    + intros Hn Hst. rewrite Hq, Hn, (Ht Hn Hst). reflexivity.
Qed.

(** The copy loop returns, having added copies only. *)
Lemma cpLoop_spec (e : Env) (name dir : string) (hi : Z) (fuel : nat) :
  forall (i : Z) (w : World),
    (Z.to_nat (hi - i) < fuel)%nat ->
    exists r cps,
      onlyCp cps /\
      cpLoop e name dir i hi fuel w = Done r (withTrace (cps ++ trace w) w).
Proof.
  induction fuel as [|fuel IH]; intros i w Hfuel; [lia|].
  cbn [cpLoop]. destruct (Z.ltb_spec i hi) as [Hlt|Hge].
  - unfold bind at 1, emit.
    destruct (cpRun e name (shotFilename dir i)).
    + destruct (IH (i + 1) (withTrace (EvCp name (shotFilename dir i) :: trace w) w))
        as (r & cps & Hcp & Heq); [lia|].
      exists r, (cps ++ [EvCp name (shotFilename dir i)])%list. split.
      * apply Forall_app. split; [assumption|]. repeat constructor. eauto.
      * unfold withTrace in *. cbn in *. rewrite Heq, <- app_assoc. reflexivity.
    + exists (Err "fail to cp shot"), [EvCp name (shotFilename dir i)].
      split; [repeat constructor; eauto | reflexivity].
  - exists (Ok tt), []. split; [constructor|]. destruct w; reflexivity.
Qed.

Ltac exec :=
  unfold bind, Lock, TryLock, Unlock, spawn, setSession, setMutex, emit, ret,
         getRunning, getSession;
  cbn -[List.remove cpLoop lastTLShotInternal takeLastShot].

Ltac crunch :=
  cbn [tlRunning svc_timelapse rpicamMutex nextPid trace
       live liveStill lockHeld exclusive spawnsLocked stillsLocked world_of].

(** Rewrite with what is known of the trace so far. *)
Ltac settle :=
  crunch;
  repeat match goal with
         | H : live _ = _ |- _ => rewrite H
         | H : liveStill _ = _ |- _ => rewrite H
         | H : lockHeld _ = _ |- _ => rewrite H
         | H : exclusive _ = _ |- _ => rewrite H
         | H : spawnsLocked _ = _ |- _ => rewrite H
         | H : stillsLocked _ = _ |- _ => rewrite H
         | |- context [List.remove Nat.eq_dec ?p [?p]] => rewrite remove_single
         end;
  cbn [List.remove List.length Nat.leb andb];
  try reflexivity.

(** The hero shot: taken under the lock, waited for, lock released. *)
Lemma takeLastShot_spec (e : Env) (dir : string) (lastID count : Z) (w : World) :
  calm w -> live (trace w) = [] ->
  exists r w',
    takeLastShot e dir lastID count w = Done r w' /\
    sameSession w w' /\ calm w' /\ live (trace w') = [].
Proof.
  destruct w as [running tl mutex pid t].
  intros [Hm Hlock Hns Hex Hsp Hst] Hlive. cbn in *. subst mutex.
  unfold takeLastShot. exec.
  destruct (stillRun e); exec.
  - match goal with
    | |- context [cpLoop ?e ?n ?d ?i ?hi ?f ?w0] =>
        destruct (cpLoop_spec e n d hi f i w0) as (r & cps & Hcp & ->); [lia|]
    end.
    destruct (onlyCp_frame cps
                (EvExit pid :: EvSpawn Still pid (shotFilename dir lastID) :: EvLock :: t)
                Hcp) as (Hl & Hq & Hk & Hs & He & Ht).
    assert (Hx : exclusive (EvExit pid :: EvSpawn Still pid (shotFilename dir lastID)
                              :: EvLock :: t) = true) by settle.
    assert (Hn : liveStill (EvExit pid :: EvSpawn Still pid (shotFilename dir lastID)
                              :: EvLock :: t) = []) by settle.
    assert (Hy : stillsLocked (EvExit pid :: EvSpawn Still pid (shotFilename dir lastID)
                                 :: EvLock :: t) = true) by settle.
    specialize (He Hx). specialize (Ht Hn Hy).
    unfold withTrace. exec.
    eexists _, _. split; [reflexivity|].
    split; [split; reflexivity|].
    split; [constructor|]; crunch; rewrite ?Hl, ?Hq, ?Hs, ?He, ?Ht; settle.
  - eexists _, _. split; [reflexivity|].
    split; [split; reflexivity|].
    split; [constructor|]; settle.
Qed.

(** The scan of the directory changes nothing; it returns or panics. *)
Lemma lastTLShotInternal_cases (e : Env) (dir : string) (w : World) :
  lastTLShotInternal e dir w = Panicked w \/
  exists r, lastTLShotInternal e dir w = Done r w.
Proof.
  unfold lastTLShotInternal.
  destruct (readDir e dir) as [files|msg]; [|right; eexists; reflexivity].
  pose proof (PipelineProps.scanShots_total files) as Htot.
  destruct (scanShots files (len files - 1) (S (S (List.length files))));
    try (right; eexists; reflexivity); [now left | contradiction].
Qed.

(** When it returns a name, the name is that of the last entry of the
    listing, which is a shot. *)
Lemma lastTLShotInternal_ok (e : Env) (dir : string) (w w' : World)
      (name : string) (count : Z) :
  lastTLShotInternal e dir w = Done (Ok (name, count)) w' ->
  w' = w /\
  exists pre f,
    readDir e dir = Ok (pre ++ [f])%list /\ isShot f = true /\
    name = filepath_Join dir (Name f) /\ count = len (pre ++ [f])%list.
Proof.
  unfold lastTLShotInternal.
  destruct (readDir e dir) as [files|msg]; [|discriminate].
  induction files as [|f pre _] using rev_ind.
  - discriminate.
  - rewrite PipelineProps.scanShots_last.
    destruct (isShot f) eqn:Hshot; [|discriminate].
    unfold ret. intros H. injection H as <- <- <-.
    split; [reflexivity|]. exists pre, f. repeat split; assumption.
Qed.

Lemma finishTimelapse_sound (e : Env) (w : World) :
  sound w -> tlRunning w = true -> sound (world_of (finishTimelapse e w)).
Proof.
  destruct w as [running tl mutex pid t].
  intros [Hs [Hm Hl Hns Hx Hp Hst] Hlive]. unfold session_inv in Hs.
  cbn in *. intros ->.
  destruct tl as [tl|]; [|exfalso; now apply Hs].
  assert (Hdead : List.remove Nat.eq_dec (timelapseCommand tl) (live t) = []).
  { destruct Hlive as [->|(tl' & Heq & ->)]; [reflexivity|].
    injection Heq as <-. apply remove_single. }
  unfold finishTimelapse, bind, getSession, emit. cbn -[lastTLShotInternal takeLastShot].
  set (w1 := {| tlRunning := true; svc_timelapse := Some tl; rpicamMutex := mutex;
                nextPid := pid; trace := EvExit (timelapseCommand tl) :: t |}).
  assert (Hc1 : calm w1).
  { subst w1. constructor; crunch; try assumption.
    - rewrite Hns. reflexivity.
    - rewrite Hdead, Hx. reflexivity.
    - rewrite Hns, Hst. reflexivity. }
  assert (Hw1 : sound w1).
  { constructor; [exact Hs | exact Hc1 | now left]. }
  destruct (lastTLShotInternal_cases e (currentDir tl) w1) as [->|[r ->]];
    [exact Hw1|].
  destruct r as [[name count]|msg]; [|exact Hw1].
  destruct (getShotID e name) as [id|msg]; [|exact Hw1].
  destruct (takeLastShot_spec e (currentDir tl) id (Z.quot count 10) w1 Hc1 Hdead)
    as (r & w2 & -> & _ & [Hm2 Hl2 Hn2 Hx2 Hp2 Hs2] & Hv2).
  unfold setSession, ret. crunch.
  constructor; [| |now left].
  - split; [discriminate | intros H; now contradiction H].
  - constructor; settle; assumption.
Qed.

(** With no session there is no live capture process. *)
Lemma idle_no_process (w : World) :
  sound w -> tlRunning w = false ->
  svc_timelapse w = None /\ live (trace w) = [].
Proof.
  intros [Hs _ Hlive] Hrun. unfold session_inv in Hs.
  assert (Hnone : svc_timelapse w = None).
  { destruct (svc_timelapse w); [|reflexivity].
    rewrite Hrun in Hs. assert (false = true) by (apply Hs; discriminate).
    discriminate. }
  split; [assumption|].
  destruct Hlive as [H|(tl & Heq & _)]; [assumption | congruence].
Qed.

Lemma startTimelapse_sound (e : Env) (status : Status) (w : World) :
  sound w -> tlRunning w = false ->
  sound (world_of (startTimelapse e status w)).
Proof.
  intros Hw Hrun. destruct (idle_no_process w Hw Hrun) as [Hnone Hlive].
  pose proof Hw as [Hs [Hm Hl Hns Hx Hp Hst] _].
  destruct w as [running tl mutex pid t]. cbn in *. subst.
  unfold startTimelapse.
  destruct (mkdirTemp e _) as [tmpDir|msg]; [|exact Hw].
  destruct (waitForProgress status (waitEvents e)) as [status'| |];
    [|exact Hw|exact Hw].
  exec. destruct (cmdStart e); exec.
  - constructor.
    + split; [discriminate | reflexivity].
    + constructor; settle.
    + right. eexists. split; [reflexivity|]. settle.
  - constructor; [exact Hs | constructor; settle | left; settle].
Qed.

Lemma handleTimelapse_sound (e : Env) (w : World) :
  sound w -> sound (world_of (handleTimelapse e w)).
Proof.
  intros Hw. unfold handleTimelapse.
  destruct (poll e) as [status|msg]; [|exact Hw].
  unfold bind, getRunning. destruct (tlRunning w) eqn:Hrun; cbn [negb].
  - destruct (timelapseShouldStop (State status)); [|exact Hw].
    now apply finishTimelapse_sound.
  - destruct (Online status); cbn [negb]; [|exact Hw].
    destruct (timelapseShouldStart (State status)); [|exact Hw].
    now apply startTimelapse_sound.
Qed.

Lemma sound_readFile (w : World) (name : string) :
  sound w -> sound (withTrace (EvReadFile name :: trace w) w).
Proof.
  intros [Hs [Hm Hl Hns Hx Hp Hst] Hlive].
  constructor; [exact Hs | | exact Hlive].
  constructor; unfold withTrace; crunch; try assumption.
  - rewrite Hx, andb_true_r. apply Nat.leb_le. now apply exclusive_live.
  - rewrite Hns, Hst. reflexivity.
Qed.

Lemma Snapshot_sound (tmpDir : string) (e : Env) (w : World) :
  sound w -> sound (world_of (Snapshot tmpDir e w)).
Proof.
  intros Hw. unfold Snapshot, isTimelapseRunning, bind at 1, getRunning.
  destruct (tlRunning w) eqn:Hrun; cbn [negb].
  - (* a session is running: the last frame of its directory *)
    unfold bind at 1, LastTLShot, bind at 1, getSession.
    destruct (svc_timelapse w) as [tl|]; [|exact Hw].
    unfold bind at 1.
    destruct (lastTLShotInternal_cases e (currentDir tl) w) as [->|[r ->]];
      [exact Hw|].
    destruct r as [[name count]|msg]; unfold ret; [|exact Hw].
    unfold bind, emit.
    destruct (readFile e name); apply (sound_readFile w name Hw).
  - (* idle: a still capture under the lock *)
    destruct (idle_no_process w Hw Hrun) as [Hnone Hlive].
    destruct Hw as [Hs [Hm Hl Hns Hx Hp Hst] _].
    destruct w as [running tl mutex pid t]. cbn in *. subst.
    unfold takeShot. exec.
    assert (Hsound : forall name,
      sound {| tlRunning := false; svc_timelapse := None; rpicamMutex := false;
               nextPid := S pid;
               trace := EvUnlock :: EvExit pid :: EvSpawn Still pid name
                        :: EvTryLock true :: t |}).
    { intros name. constructor; [exact Hs | constructor; settle | left; settle]. }
    destruct (stillRun e); crunch.
    + destruct (readFile e _);
        apply (sound_readFile _ _ (Hsound _)).
    + apply Hsound.
Qed.

Lemma step_sound (tmpDir : string) (o : op) (w : World) :
  sound w -> sound (world_of (step tmpDir o w)).
Proof.
  intros Hw. destruct o as [e|e]; cbn [step].
  - now apply handleTimelapse_sound.
  - pose proof (Snapshot_sound tmpDir e w Hw) as H.
    unfold bind. destruct (Snapshot tmpDir e w); exact H.
Qed.

Lemma run_sound (tmpDir : string) (ops : list op) :
  forall w, sound w -> sound (run tmpDir ops w).
Proof.
  induction ops as [|o ops IH]; intros w Hw; cbn [run]; [assumption|].
  pose proof (step_sound tmpDir o w Hw) as H.
  destruct (step tmpDir o w) as [[] w'|w'|w']; cbn [world_of] in H.
  - now apply IH.
  - destruct o; [assumption | now apply IH].
  - assumption.
Qed.

Lemma newWorld_sound : sound newWorld.
Proof.
  constructor; [|constructor; reflexivity|now left].
  split; [discriminate | intros H; now contradiction H].
Qed.

(** The hero shot never touches the session, whatever the lock. *)
Lemma takeLastShot_session (e : Env) (dir : string) (lastID count : Z) (w : World) :
  tlRunning (world_of (takeLastShot e dir lastID count w)) = tlRunning w /\
  svc_timelapse (world_of (takeLastShot e dir lastID count w)) = svc_timelapse w.
Proof.
  destruct w as [running tl mutex pid t]. unfold takeLastShot. exec.
  destruct mutex; [split; reflexivity|]. exec.
  destruct (stillRun e); exec; [|split; reflexivity].
  match goal with
  | |- context [cpLoop ?e ?n ?d ?i ?hi ?f ?w0] =>
      destruct (cpLoop_spec e n d hi f i w0) as (r & cps & _ & ->); [lia|]
  end.
  unfold withTrace. exec. split; reflexivity.
Qed.

(** A tick keeps flag and record in step, and never puts a session in the
    place of another. *)
Lemma handleTimelapse_session (e : Env) (w : World) :
  session_inv w -> keeps w (world_of (handleTimelapse e w)).
Proof.
  intros Hs.
  assert (Hkeep : keeps w w) by (split; [assumption | now left]).
  unfold handleTimelapse.
  destruct (poll e) as [status|msg]; [|exact Hkeep].
  unfold bind at 1, getRunning. destruct (tlRunning w) eqn:Hrun; cbn [negb].
  - (* running *)
    destruct (timelapseShouldStop (State status)); [|exact Hkeep].
    unfold finishTimelapse, bind at 1, getSession.
    destruct (svc_timelapse w) as [tl|] eqn:Htl; [|exact Hkeep].
    unfold bind at 1, emit.
    set (w1 := {| tlRunning := tlRunning w; svc_timelapse := svc_timelapse w;
                  rpicamMutex := rpicamMutex w; nextPid := nextPid w;
                  trace := EvExit (timelapseCommand tl) :: trace w |}).
    assert (Hkeep1 : keeps w w1).
    { subst w1. unfold keeps, session_inv in *. cbn. rewrite Htl, Hrun.
      split; [|intros tl0 <-; now left].
      split; [discriminate | reflexivity]. }
    unfold bind at 1.
    destruct (lastTLShotInternal_cases e (currentDir tl) w1) as [->|[r ->]];
      [exact Hkeep1|].
    destruct r as [[name count]|msg]; [|exact Hkeep1].
    destruct (getShotID e name) as [id|msg]; [|exact Hkeep1].
    unfold bind at 1.
    destruct (takeLastShot e (currentDir tl) id (Z.quot count 10) w1)
      as [r w2|w2|w2] eqn:Htake;
      pose proof (takeLastShot_session e (currentDir tl) id (Z.quot count 10) w1)
        as [Hr2 Hs2];
      rewrite Htake in Hr2, Hs2; cbn [world_of] in Hr2, Hs2.
    + exec. unfold keeps, session_inv. cbn. split; [|intros; now right].
      split; [discriminate | intros H; now contradiction H].
    + cbn [world_of]. unfold keeps, session_inv in *. rewrite Hr2, Hs2. exact Hkeep1.
    + cbn [world_of]. unfold keeps, session_inv in *. rewrite Hr2, Hs2. exact Hkeep1.
  - (* idle *)
    destruct (Online status); cbn [negb]; [|exact Hkeep].
    destruct (timelapseShouldStart (State status)); [|exact Hkeep].
    assert (Hnone : svc_timelapse w = None).
    { unfold session_inv in Hs. destruct (svc_timelapse w); [|reflexivity].
      rewrite Hrun in Hs. assert (false = true) by (apply Hs; discriminate).
      discriminate. }
    unfold startTimelapse.
    destruct (mkdirTemp e _) as [tmpDir|msg]; [|exact Hkeep].
    destruct (waitForProgress status (waitEvents e)) as [status'| |];
      [|exact Hkeep|exact Hkeep].
    destruct w as [running tl mutex pid t]. cbn in Hrun, Hnone. subst. exec.
    destruct mutex; [exact Hkeep|]. exec.
    destruct (cmdStart e); exec.
    + split; [|discriminate]. unfold session_inv. cbn.
      split; [discriminate | reflexivity].
    + split; [|discriminate]. unfold session_inv. cbn.
      split; [discriminate | intros H; now contradiction H].
Qed.

Lemma sameSession_refl (w : World) : sameSession w w.
Proof. split; reflexivity. Qed.

Lemma sameSession_readFile (w : World) (name : string) :
  sameSession w (withTrace (EvReadFile name :: trace w) w).
Proof. split; reflexivity. Qed.

(** A snapshot leaves the session alone. *)
Lemma Snapshot_session (tmpDir : string) (e : Env) (w : World) :
  sameSession w (world_of (Snapshot tmpDir e w)).
Proof.
  pose proof (sameSession_refl w) as Hrefl.
  unfold Snapshot, isTimelapseRunning, bind at 1, getRunning.
  destruct (tlRunning w) eqn:Hrun; cbn [negb].
  - unfold bind at 1, LastTLShot, bind at 1, getSession.
    destruct (svc_timelapse w) as [tl|] eqn:Htl; [|exact Hrefl].
    unfold bind at 1.
    destruct (lastTLShotInternal_cases e (currentDir tl) w) as [->|[r ->]];
      [exact Hrefl|].
    destruct r as [[name count]|msg]; unfold ret; [|exact Hrefl].
    unfold bind, emit.
    destruct (readFile e name); apply sameSession_readFile.
  - clear Hrefl Hrun. destruct w as [running tl mutex pid t].
    unfold takeShot. exec. destruct mutex; exec; [split; reflexivity|].
    destruct (stillRun e); exec; [|split; reflexivity].
    destruct (readFile e _); split; reflexivity.
Qed.

Lemma step_session (tmpDir : string) (o : op) (w : World) :
  session_inv w -> keeps w (world_of (step tmpDir o w)).
Proof.
  intros Hs. destruct o as [e|e]; cbn [step].
  - now apply handleTimelapse_session.
  - destruct (Snapshot_session tmpDir e w) as [Hr Ht].
    assert (Hw : world_of ((Snapshot tmpDir e;;; ret tt) w) =
                 world_of (Snapshot tmpDir e w))
      by (unfold bind; destruct (Snapshot tmpDir e w); reflexivity).
    rewrite Hw. unfold keeps, session_inv in *. rewrite Hr, Ht.
    split; [assumption | intros tl Htl; now left].
Qed.

Lemma run_session (tmpDir : string) (ops : list op) :
  forall w, session_inv w -> session_inv (run tmpDir ops w).
Proof.
  induction ops as [|o ops IH]; intros w Hw; cbn [run]; [assumption|].
  destruct (step_session tmpDir o w Hw) as [H _].
  destruct (step tmpDir o w) as [[] w'|w'|w']; cbn [world_of] in H.
  - now apply IH.
  - destruct o; [assumption | now apply IH].
  - assumption.
Qed.

Lemma newWorld_session : session_inv newWorld.
Proof. exact (sound_session _ newWorld_sound). Qed.

(** The polls IDLE, PRINTING, PRINTING, FINISHED make one session, one
    capture process that is stopped again, and one video. *)
Example one_cycle :
  let w := run "/tmp/cam"
             [Tick (sampleEnv (Ok idle) [] []);
              Tick (sampleEnv (Ok printing) [] []);
              Tick (sampleEnv (Ok printing) [frame 0] []);
              Tick (sampleEnv (Ok finished) [frame 0; frame 1; frame 2] [])]
             newWorld in
  tlRunning w = false /\ svc_timelapse w = None /\ builds (trace w) = 1%nat /\
  live (trace w) = [] /\ nextPid w = 2%nat.
Proof. repeat split; reflexivity. Qed.

(** C1: after every sequence of calls (ticks of the poll loop, snapshots in
    between) the running flag is true exactly when the session record is
    non-nil, and the service holds at most one session; every single call
    keeps flag and record in step from any state where they are, and never
    replaces a session by another one. *)
Theorem session_iff_running (tmpDir : string) :
  (forall ops,
     (tlRunning (run tmpDir ops newWorld) = true <->
      svc_timelapse (run tmpDir ops newWorld) <> None) /\
     (sessions (run tmpDir ops newWorld) <= 1)%nat) /\
  (forall o w, session_inv w -> keeps w (world_of (step tmpDir o w))).
Proof.
  split.
  - intros ops. split.
    + exact (run_session tmpDir ops newWorld newWorld_session).
    + unfold sessions. destruct (svc_timelapse _); lia.
  - intros o w. apply step_session.
Qed.

Lemma session_iff_running_witness :
  session_inv newWorld /\
  keeps newWorld
    (world_of (step "/tmp/cam" (Tick (sampleEnv (Ok printing) [] [])) newWorld)).
Proof.
  assert (H : session_inv newWorld).
  { split; [discriminate | intros H; now contradiction H]. }
  split; [exact H|].
  exact (proj2 (session_iff_running "/tmp/cam") _ newWorld H).
Defined.

(** C2 as stated fails: after the tick that starts a time-lapse the session
    is active and its capture process runs, yet the arbitration lock is
    free, and a [TryLock] acquires it. *)
Lemma lock_free_during_session :
  tlRunning startedWorld = true /\
  live (trace startedWorld) = [0%nat] /\
  rpicamMutex startedWorld = false /\
  lockHeld (trace startedWorld) = false /\
  exists w', TryLock startedWorld = Done true w'.
Proof.
  repeat split; try reflexivity. eexists. reflexivity.
Qed.

(** C2, amended: every capture process is started with the lock held, a
    still capture runs under the lock from start to end, and the lock is free
    again when the call returns, also while a session is active.  With the
    calls made one after the other, at most one capture process runs at every
    instant, and none runs unless the running flag is set. *)
Theorem capture_exclusive_by_flag (tmpDir : string) (ops : list op) :
  exclusive (trace (run tmpDir ops newWorld)) = true /\
  spawnsLocked (trace (run tmpDir ops newWorld)) = true /\
  stillsLocked (trace (run tmpDir ops newWorld)) = true /\
  rpicamMutex (run tmpDir ops newWorld) = false /\
  lockHeld (trace (run tmpDir ops newWorld)) = false /\
  (tlRunning (run tmpDir ops newWorld) = true \/
   live (trace (run tmpDir ops newWorld)) = []).
Proof.
  pose proof (run_sound tmpDir ops newWorld newWorld_sound) as Hw.
  destruct Hw as [Hs [Hm Hl Hns Hx Hp Hst] Hlive].
  repeat split; try assumption.
  destruct Hlive as [Hnil|(tl & Htl & _)]; [now right|].
  left. apply Hs. rewrite Htl. discriminate.
Qed.

(** [takeShot] itself does not look at the session: entered while the
    time-lapse process runs, as happens when the running flag was read just
    before the tick that started it, it gets the lock and a second capture
    process runs beside the first. *)
Lemma takeShot_during_session_overlaps :
  let w := world_of (takeShot "/tmp/cam" (sampleEnv (Ok printing) [] []) startedWorld) in
  trace w =
    [EvUnlock; EvExit 1; EvSpawn Still 1 "/tmp/cam/1000000000.jpg"; EvTryLock true;
     EvUnlock; EvSpawn Continuous 0 "/tmp/timelapse17/image%06d.jpg"; EvLock] /\
  exclusive (trace w) = false.
Proof. split; reflexivity. Qed.

(** When the directory cannot be listed, lists nothing, or the name of the
    last shot cannot be read as a number, the Finishing transition stops the
    capture process and returns with the session as it was. *)
Lemma finishTimelapse_early_return (e : Env) (w : World) (tl : timelapse) :
  svc_timelapse w = Some tl ->
  (readDir e (currentDir tl) = Ok [] \/
   (exists msg, readDir e (currentDir tl) = Err msg) \/
   (exists pre f msg,
      readDir e (currentDir tl) = Ok (pre ++ [f])%list /\ isShot f = true /\
      getShotID e (filepath_Join (currentDir tl) (Name f)) = Err msg)) ->
  finishTimelapse e w =
    Done tt (withTrace (EvExit (timelapseCommand tl) :: trace w) w).
Proof.
  intros Htl Hcase.
  unfold finishTimelapse, bind at 1, getSession. rewrite Htl.
  unfold bind at 1, emit. unfold bind at 1, lastTLShotInternal.
  destruct Hcase as [Hdir|[[msg Hdir]|(pre & f & msg & Hdir & Hshot & Hid)]];
    rewrite Hdir; try reflexivity.
  rewrite PipelineProps.scanShots_last, Hshot. unfold ret. rewrite Hid.
  reflexivity.
Qed.

(** C5, evaluated: the session directory holds no frame when the printer
    reports FINISHED.  The tick stops the capture process and returns, and the
    machine still counts as running with the same session; a print that
    starts afterwards is taken for the old session going on. *)
Theorem finish_keeps_session_without_frame :
  let e := sampleEnv (Ok finished) [] [] in
  let w2 := world_of (handleTimelapse e startedWorld) in
  timelapseShouldStop (State finished) = true /\
  tlRunning startedWorld = true /\
  handleTimelapse e startedWorld =
    Done tt (withTrace (EvExit 0 :: trace startedWorld) startedWorld) /\
  tlRunning w2 = true /\
  svc_timelapse w2 = svc_timelapse startedWorld /\
  svc_timelapse startedWorld <> None /\
  live (trace w2) = [] /\
  handleTimelapse (sampleEnv (Ok printing) [] []) w2 = Done tt w2.
Proof.
  repeat split; try reflexivity. discriminate.
Qed.

Lemma Snapshot_no_session (tmpDir : string) (e : Env) (w : World) :
  tlRunning w = true -> svc_timelapse w = None ->
  Snapshot tmpDir e w = Done (Err "fail to get last TL shot name") w.
Proof.
  intros Hrun Htl.
  unfold Snapshot, isTimelapseRunning, bind at 1, getRunning. rewrite Hrun.
  cbn [negb]. unfold bind at 1, LastTLShot, bind at 1, getSession.
  rewrite Htl. reflexivity.
Qed.

(** While a session is running [Snapshot] is the read of the name found in
    the session directory. *)
Lemma Snapshot_running (tmpDir : string) (e : Env) (w : World) (tl : timelapse) :
  tlRunning w = true -> svc_timelapse w = Some tl ->
  Snapshot tmpDir e w =
    match lastTLShotInternal e (currentDir tl) w with
    | Done (Ok (name, _)) _ =>
        Done match readFile e name with
             | Ok shot => Ok shot
             | Err _ => Err "fail to read shot"
             end
             (withTrace (EvReadFile name :: trace w) w)
    | Done (Err _) _ => Done (Err "fail to get last TL shot name") w
    | Panicked _ => Panicked w
    | Hung _ => Hung w
    end.
Proof.
  intros Hrun Htl.
  unfold Snapshot, isTimelapseRunning, bind at 1, getRunning. rewrite Hrun.
  cbn [negb]. unfold bind at 1, LastTLShot, bind at 1, getSession.
  rewrite Htl. unfold bind at 1.
  destruct (lastTLShotInternal_cases e (currentDir tl) w) as [->|[r ->]];
    [reflexivity|].
  destruct r as [[name count]|msg]; unfold ret; [|reflexivity].
  unfold bind, emit, withTrace. destruct (readFile e name); reflexivity.
Qed.

Lemma Join_frame (dir : string) (id : Z) :
  filepath_Join dir (Name (frame id)) = captureFilename dir id.
Proof. reflexivity. Qed.

(** C7: a [Snapshot] made while the time-lapse is running starts no capture
    process and does not touch the arbitration lock: all it can add to the
    trace is one file read.  The bytes it returns are those of the last entry
    of the listing of the session's directory, which is a [.jpg] file.  When
    that directory holds the frames the capture has written so far (not more
    than a million), listed by name as [os.ReadDir] does, the file read is the
    frame written last. *)
Theorem snapshot_during_session_reads_last_frame
        (tmpDir : string) (e : Env) (w : World) :
  tlRunning w = true ->
  (world_of (Snapshot tmpDir e w) = w \/
   exists name,
     world_of (Snapshot tmpDir e w) = withTrace (EvReadFile name :: trace w) w) /\
  (forall shot w',
     Snapshot tmpDir e w = Done (Ok shot) w' ->
     exists tl pre f,
       svc_timelapse w = Some tl /\
       readDir e (currentDir tl) = Ok (pre ++ [f])%list /\
       isShot f = true /\
       readFile e (filepath_Join (currentDir tl) (Name f)) = Ok shot /\
       w' = withTrace
              (EvReadFile (filepath_Join (currentDir tl) (Name f)) :: trace w) w) /\
  (forall tl files n,
     svc_timelapse w = Some tl ->
     readDir e (currentDir tl) = Ok files ->
     Sorted nameLt files ->
     Permutation files (framesWritten (S n)) ->
     Z.of_nat n < 1000000 ->
     Snapshot tmpDir e w =
       Done match readFile e (captureFilename (currentDir tl) (Z.of_nat n)) with
            | Ok shot => Ok shot
            | Err _ => Err "fail to read shot"
            end
            (withTrace
               (EvReadFile (captureFilename (currentDir tl) (Z.of_nat n)) :: trace w)
               w)).
Proof.
  intros Hrun. split; [|split].
  - destruct (svc_timelapse w) as [tl|] eqn:Htl.
    + rewrite (Snapshot_running tmpDir e w tl Hrun Htl).
      destruct (lastTLShotInternal e (currentDir tl) w) as [r w1|w1|w1];
        [|now left..].
      destruct r as [[name count]|msg]; [|now left].
      right. eexists. reflexivity.
    + rewrite (Snapshot_no_session tmpDir e w Hrun Htl). now left.
  - intros shot w' H.
    destruct (svc_timelapse w) as [tl|] eqn:Htl.
    + rewrite (Snapshot_running tmpDir e w tl Hrun Htl) in H.
      destruct (lastTLShotInternal e (currentDir tl) w) as [r w1|w1|w1] eqn:Hlast;
        try discriminate.
      destruct r as [[name count]|msg]; [|discriminate].
      apply lastTLShotInternal_ok in Hlast
        as (_ & pre & f & Hdir & Hshot & -> & _).
      destruct (readFile e _) as [shot'|msg] eqn:Hread; [|discriminate].
      injection H as <- <-.
      exists tl, pre, f. repeat split; assumption.
    + rewrite (Snapshot_no_session tmpDir e w Hrun Htl) in H. discriminate.
  - intros tl files n Htl Hdir Hsorted Hperm Hn.
    destruct (PipelineProps.sorted_listing_ends_with_newest files n Hsorted Hperm Hn)
      as [pre ->].
    rewrite (Snapshot_running tmpDir e w tl Hrun Htl).
    unfold lastTLShotInternal. rewrite Hdir, PipelineProps.scanShots_last.
    rewrite PipelineProps.isShot_frame. unfold ret.
    rewrite Join_frame. reflexivity.
Qed.

Lemma snapshot_during_session_reads_last_frame_witness :
  tlRunning startedWorld = true /\
  Snapshot "/tmp/cam" (sampleEnv (Ok printing) [frame 0; frame 1] [x2a]) startedWorld =
    Done (Ok [x2a])
      (withTrace (EvReadFile "/tmp/timelapse17/image000001.jpg" :: trace startedWorld)
                 startedWorld).
Proof.
  split; [reflexivity|].
  refine (proj2 (proj2 (snapshot_during_session_reads_last_frame
                  "/tmp/cam" (sampleEnv (Ok printing) [frame 0; frame 1] [x2a])
                  startedWorld eq_refl))
                _ [frame 0; frame 1] 1%nat eq_refl eq_refl _ _ _).
  - repeat constructor.
  - apply Permutation_refl.
  - reflexivity.
Defined.

(** C10: on status code 204 [jobStatus] returns an online status in state
    FINISHED, no error; [JobStatus] hands it on; FINISHED is a state on which
    the time-lapse stops, so a tick that polls it while a session is running
    is the Finishing transition. *)
Theorem no_job_finishes_timelapse (decoded : result jobResponse) :
  jobStatus (Response 204 decoded) = Ok noJobStatus /\
  Online noJobStatus = true /\
  State noJobStatus = StatusFinished /\
  timelapseShouldStop (State noJobStatus) = true /\
  (forall c pe,
     http pe = Response 204 decoded -> cachedTime c <= nowLookup pe ->
     fst (fst (JobStatus c pe)) = Ok noJobStatus) /\
  (forall e w,
     poll e = Ok noJobStatus -> tlRunning w = true ->
     handleTimelapse e w = finishTimelapse e w).
Proof.
  repeat split.
  - intros c pe Hh Hle.
    destruct (CacheProps.JobStatus_always_asks c pe Hle) as [_ ->].
    rewrite Hh. reflexivity.
  - intros e w Hpoll Hrun. unfold handleTimelapse. rewrite Hpoll.
    unfold bind, getRunning. rewrite Hrun. reflexivity.
Qed.

Lemma no_job_finishes_timelapse_witness :
  handleTimelapse (sampleEnv (Ok noJobStatus) [frame 0] []) startedWorld =
  finishTimelapse (sampleEnv (Ok noJobStatus) [frame 0] []) startedWorld.
Proof.
  exact (proj2 (proj2 (proj2 (proj2 (proj2
           (no_job_finishes_timelapse (Err "unexpected end of JSON input"))))))
           (sampleEnv (Ok noJobStatus) [frame 0] []) startedWorld
           eq_refl eq_refl).
Defined.

End MachineProps.

(** ** More on the status client *)

Module PollProps.
Import prusalinkclient.

(** X1: after a call of [JobStatus] the cache holds exactly what the call
    returned: the status when it returned one, nothing when it returned an
    error.  A call sends at most one request. *)
Theorem cache_holds_what_was_returned (c : client) (e : pollEnv) :
  match fst (fst (JobStatus c e)) with
  | Ok st => cachedStatus (snd (fst (JobStatus c e))) = Some st
  | Err _ => cachedStatus (snd (fst (JobStatus c e))) = None
  end /\
  (snd (JobStatus c e) <= 1)%nat.
Proof.
  unfold JobStatus, jobStatusFromCache.
  destruct (cachedTime c <? nowLookup e + 10 * second); cbn [cachedStatus].
  - destruct (jobStatus (http e)); cbn; split; try reflexivity;
      destruct (http e); cbn; lia.
  - destruct (cachedStatus c) as [st|] eqn:Hc; cbn.
    + split; [assumption | lia].
    + destruct (jobStatus (http e)); cbn; split; try reflexivity;
        try assumption; destruct (http e); cbn; lia.
Qed.

Lemma JobStatus_cachedTime (c : client) (e : pollEnv) :
  cachedTime c <= nowLookup e -> nowLookup e <= nowStore e ->
  cachedTime (snd (fst (JobStatus c e))) <= nowStore e.
Proof.
  intros Hc He. unfold JobStatus.
  rewrite CacheProps.jobStatusFromCache_evicts by (unfold second; lia).
  destruct (jobStatus (http e)); cbn; lia.
Qed.

(** X2: on a clock that never goes back no call is ever answered from the
    cache: each call of a sequence returns what the printer answers to this
    very call, and the sequence sends a request for every call. *)
Theorem steady_clock_never_hits (c : client) (t0 : Z) (es : list pollEnv) :
  cachedTime c <= t0 -> clockFrom t0 es ->
  fst (fst (pollAll c es)) = map (fun e => jobStatus (http e)) es /\
  snd (pollAll c es) = requests es.
Proof.
  revert c t0. induction es as [|e es IH]; intros c t0 Hc Hclock.
  - split; reflexivity.
  - destruct Hclock as (H0 & H1 & Hrest).
    assert (Hle : cachedTime c <= nowLookup e) by lia.
    destruct (CacheProps.JobStatus_always_asks c e Hle) as [Hn Hr].
    pose proof (JobStatus_cachedTime c e Hle H1) as Hc1.
    cbn [pollAll map requests].
    destruct (JobStatus c e) as [[r c1] n]. cbn [fst snd] in *.
    destruct (IH c1 (nowStore e) Hc1 Hrest) as [IHr IHn].
    destruct (pollAll c1 es) as [[rs c2] m]. cbn [fst snd] in *.
    subst. split; reflexivity.
Qed.

Lemma steady_clock_never_hits_witness :
  fst (fst (pollAll NewClient [firstPoll; secondPoll])) =
    [jobStatus (http firstPoll); jobStatus (http secondPoll)] /\
  snd (pollAll NewClient [firstPoll; secondPoll]) = 2%nat.
Proof.
  apply (steady_clock_never_hits NewClient 0 [firstPoll; secondPoll]).
  - cbn. lia.
  - cbn. unfold second. lia.
Defined.

(** X3: [jobStatus] returns a status for three answers only: a request that
    ended on its deadline, status code 204, and status code 200 with a body
    that decodes.  The status says offline exactly in the first case, and is
    then the zero status. *)
Theorem status_only_for_three_answers (h : httpOutcome) :
  (is_ok (jobStatus h) = true <->
   h = DoFailed true \/ (exists d, h = Response 204 d) \/
   (exists r, h = Response 200 (Ok r))) /\
  (forall st, jobStatus h = Ok st ->
     (Online st = false <-> h = DoFailed true) /\
     (Online st = false -> st = zeroStatus)).
Proof.
  split.
  - split.
    + destruct h as [|[|]|code|code [r|msg]]; cbn; try discriminate; auto.
      * destruct (Z.eqb_spec code 200) as [->|H200]; [eauto|].
        destruct (Z.eqb_spec code 204) as [->|H204]; [eauto | discriminate].
      * destruct (Z.eqb_spec code 200) as [->|H200]; [discriminate|].
        destruct (Z.eqb_spec code 204) as [->|H204]; [eauto | discriminate].
    + intros [->|[[d ->]|[r ->]]]; reflexivity.
  - intros st Hst.
    destruct h as [|[|]|code|code [r|msg]]; cbn in Hst; try discriminate.
    + injection Hst as <-. repeat split; auto.
    + destruct (Z.eqb_spec code 200) as [->|H200].
      * injection Hst as <-. cbn. repeat split; discriminate.
      * destruct (Z.eqb_spec code 204); [|discriminate].
        injection Hst as <-. cbn. repeat split; discriminate.
    + destruct (Z.eqb_spec code 200) as [->|H200]; [discriminate|].
      destruct (Z.eqb_spec code 204); [|discriminate].
      injection Hst as <-. cbn. repeat split; discriminate.
Qed.

End PollProps.

(** ** More on the ticks of the state machine *)

Module TickProps.
Import prusalinkclient camera MachineProps.

(** X4: no state is both one in which the time-lapse goes on and one on
    which it stops, the states on which it starts are states in which it goes
    on, and each of the nine states of the client is of exactly one of the
    two kinds. *)
Theorem states_are_classified (s : string) :
  timelapseShouldBeRunning s && timelapseShouldStop s = false /\
  timelapseShouldStart s && negb (timelapseShouldBeRunning s) = false /\
  forallb (fun k => xorb (timelapseShouldBeRunning k) (timelapseShouldStop k))
          [StatusIdle; StatusBusy; StatusPrinting; StatusPaused; StatusFinished;
           StatusStopped; StatusError; StatusAttention; StatusReady] = true.
Proof.
  split; [|split; [|reflexivity]].
  - unfold timelapseShouldBeRunning, timelapseShouldStart.
    destruct (String.eqb_spec s StatusPrinting) as [->|_]; [reflexivity|].
    destruct (String.eqb_spec s StatusAttention) as [->|_]; [reflexivity|].
    destruct (String.eqb_spec s StatusPaused) as [->|_]; [reflexivity|].
    destruct (String.eqb_spec s StatusBusy) as [->|_]; reflexivity.
  - unfold timelapseShouldBeRunning.
    destruct (timelapseShouldStart s); reflexivity.
Qed.

(** X5: a tick moves the machine only on an answer of the printer with
    status code 200 and a body that decodes, or with status code 204.  On
    every other outcome of the poll (a request that cannot be built or sent,
    a deadline, a body that cannot be read or decoded, another status code)
    the tick changes nothing, whether a session is running or not. *)
Theorem unanswered_poll_changes_nothing
        (c : client) (pe : pollEnv) (e : Env) (w : World) :
  cachedTime c <= nowLookup pe ->
  poll e = fst (fst (JobStatus c pe)) ->
  (forall r, http pe <> Response 200 (Ok r)) ->
  (forall d, http pe <> Response 204 d) ->
  handleTimelapse e w = Done tt w.
Proof.
  intros Hc Hpoll H200 H204.
  destruct (CacheProps.JobStatus_always_asks c pe Hc) as [_ Hr].
  rewrite Hr in Hpoll. unfold handleTimelapse. rewrite Hpoll.
  destruct (http pe) as [|[|]|code|code [r|msg]]; cbn [jobStatus]; try reflexivity.
  - unfold bind, getRunning. destruct (tlRunning w); reflexivity.
  - destruct (Z.eqb_spec code 200) as [->|_]; [now contradiction (H200 r)|].
    destruct (Z.eqb_spec code 204) as [->|_]; [now contradiction (H204 (Ok r))|].
    reflexivity.
  - destruct (Z.eqb_spec code 200) as [->|_]; [reflexivity|].
    destruct (Z.eqb_spec code 204) as [->|_]; [now contradiction (H204 (Err msg))|].
    reflexivity.
Qed.

Lemma unanswered_poll_changes_nothing_witness :
  handleTimelapse
    (sampleEnv (fst (fst (JobStatus NewClient timedOutPoll))) [frame 0] [])
    startedWorld = Done tt startedWorld.
Proof.
  apply (unanswered_poll_changes_nothing NewClient timedOutPoll);
    try reflexivity; discriminate.
Defined.

Lemma still_waiting_no_progress (st : Status) (evs : list waitEvent) :
  waitForProgress st evs = StillWaiting ->
  PrimFloat.ltb 0%float (Progress st) = false.
Proof.
  destruct evs; cbn [waitForProgress];
    destruct (PrimFloat.ltb 0%float (Progress st)); (discriminate || reflexivity).
Qed.

(** X6: the wait for progress ends with a status only if that status shows
    progress above zero, and the status is the one the tick polled or one
    polled during the wait; it ends as cancelled only if the context was
    done, and it is still waiting only if it met neither. *)
Theorem progress_comes_from_a_poll (st : Status) (evs : list waitEvent) :
  match waitForProgress st evs with
  | Progressed st' =>
      PrimFloat.ltb 0%float (Progress st') = true /\
      (st' = st \/ In (TimerFired (Ok st')) evs)
  | Cancelled => In CtxDone evs
  | StillWaiting =>
      ~ In CtxDone evs /\
      forall st', In (TimerFired (Ok st')) evs ->
                  PrimFloat.ltb 0%float (Progress st') = false
  end.
Proof.
  assert (Hzero : PrimFloat.ltb 0%float (Progress zeroStatus) = false)
    by reflexivity.
  revert st. induction evs as [|ev evs IH]; intros st; cbn [waitForProgress].
  - destruct (PrimFloat.ltb 0%float (Progress st)) eqn:Hp.
    + split; [assumption | now left].
    + split; [intros [] | intros st' []].
  - destruct (PrimFloat.ltb 0%float (Progress st)) eqn:Hp.
    + split; [assumption | now left].
    + destruct ev as [[st1|msg]|].
      * specialize (IH st1).
        destruct (waitForProgress st1 evs) as [st'| |] eqn:Hw.
        -- destruct IH as [Hpos [->|Hin]]; (split; [assumption|]);
             right; [now left | now right].
        -- now right.
        -- destruct IH as [Hno Hall]. split.
           ++ intros [Hd|Hd]; [discriminate | now apply Hno].
           ++ intros st' [Heq|Hin]; [|now apply Hall].
              injection Heq as <-. now apply still_waiting_no_progress with evs.
      * specialize (IH zeroStatus).
        destruct (waitForProgress zeroStatus evs) as [st'| |].
        -- destruct IH as [Hpos [->|Hin]].
           ++ rewrite Hzero in Hpos. discriminate.
           ++ split; [assumption | right; now right].
        -- now right.
        -- destruct IH as [Hno Hall]. split.
           ++ intros [Hd|Hd]; [discriminate | now apply Hno].
           ++ intros st' [Heq|Hin]; [discriminate | now apply Hall].
      * now left.
Qed.

(** With the lock free the hero shot returns, having added the lock, the
    still capture, the copies and the unlock to the trace. *)
Lemma takeLastShot_returns (e : Env) (dir : string) (lastID count : Z) (w : World) :
  rpicamMutex w = false ->
  exists r cps,
    onlyCp cps /\
    takeLastShot e dir lastID count w =
      Done r (afterLastShot (shotFilename dir lastID) cps w).
Proof.
  destruct w as [running tl mutex pid t]. cbn. intros ->.
  unfold takeLastShot. exec.
  destruct (stillRun e); exec.
  - match goal with
    | |- context [cpLoop ?e ?n ?d ?i ?hi ?f ?w0] =>
        destruct (cpLoop_spec e n d hi f i w0) as (r & cps & Hcp & ->); [lia|]
    end.
    unfold withTrace. exec. exists r, cps. split; [assumption | reflexivity].
  - exists (Err "fail to run rpicam-still"), []. split; [constructor | reflexivity].
Qed.

Lemma start_when_startable (e : Env) (w : World) (st st' : Status) (dir : string) :
  tlRunning w = false -> rpicamMutex w = false ->
  startable e st st' dir ->
  handleTimelapse e w = Done tt (afterStart e st' dir w).
Proof.
  intros Hrun Hm (Hpoll & Hon & Hstart & Hdir & Hwait & Hcmd).
  destruct w as [running tl mutex pid t]. cbn in Hrun, Hm. subst.
  unfold handleTimelapse. rewrite Hpoll. exec. rewrite Hon, Hstart. cbn [negb].
  unfold startTimelapse. rewrite Hdir, Hwait. exec. rewrite Hcmd. exec.
  reflexivity.
Qed.

Lemma finish_when_finishable (e : Env) (w : World) (tl : timelapse) (st : Status)
      (files : list DirEntry) (f : DirEntry) (id : Z) :
  svc_timelapse w = Some tl -> tlRunning w = true -> rpicamMutex w = false ->
  finishable e tl st files f id ->
  exists cps,
    onlyCp cps /\
    handleTimelapse e w = Done tt (afterFinish tl (len files) id cps w).
Proof.
  intros Htl Hrun Hm (Hpoll & Hstop & Hdir & [pre ->] & Hshot & Hid).
  destruct (takeLastShot_returns e (currentDir tl) id (Z.quot (len (pre ++ [f])) 10)
              (withTrace (EvExit (timelapseCommand tl) :: trace w) w) Hm)
    as (r & cps & Hcp & Htake).
  exists cps. split; [assumption|].
  unfold handleTimelapse. rewrite Hpoll.
  unfold bind at 1, getRunning. rewrite Hrun, Hstop. cbn [negb].
  unfold finishTimelapse, bind at 1, getSession. rewrite Htl.
  unfold bind at 1, emit. fold (withTrace (EvExit (timelapseCommand tl) :: trace w) w).
  unfold bind at 1, lastTLShotInternal.
  rewrite Hdir, PipelineProps.scanShots_last, Hshot. unfold ret at 1.
  rewrite Hid. unfold bind at 1. rewrite Htake.
  reflexivity.
Qed.

(** What a tick can come to when the lock is free. *)
Lemma handleTimelapse_cases (e : Env) (w : World) :
  rpicamMutex w = false ->
  world_of (handleTimelapse e w) = w \/
  (tlRunning w = true /\
   exists tl, svc_timelapse w = Some tl /\
     world_of (handleTimelapse e w) =
       withTrace (EvExit (timelapseCommand tl) :: trace w) w) \/
  (tlRunning w = false /\
   world_of (handleTimelapse e w) = withTrace (EvUnlock :: EvLock :: trace w) w) \/
  (tlRunning w = false /\
   exists st st' dir, startable e st st' dir) \/
  (tlRunning w = true /\
   exists tl st files f id, svc_timelapse w = Some tl /\ finishable e tl st files f id).
Proof.
  intros Hm. remember (handleTimelapse e w) as o eqn:Ho.
  unfold handleTimelapse in Ho.
  destruct (poll e) as [st|msg] eqn:Hpoll; [|subst o; now left].
  unfold bind at 1, getRunning in Ho. destruct (tlRunning w) eqn:Hrun; cbn [negb] in Ho.
  - destruct (timelapseShouldStop (State st)) eqn:Hstop; [|subst o; now left].
    unfold finishTimelapse, bind at 1, getSession in Ho.
    destruct (svc_timelapse w) as [tl|] eqn:Htl; [|subst o; now left].
    unfold bind at 1, emit in Ho.
    fold (withTrace (EvExit (timelapseCommand tl) :: trace w) w) in Ho.
    unfold bind at 1, lastTLShotInternal in Ho.
    destruct (readDir e (currentDir tl)) as [files|msg] eqn:Hdir;
      [|subst o; right; left; split; [reflexivity | exists tl; split; reflexivity]].
    induction files as [|f pre _] using rev_ind.
    + subst o; right; left; split; [reflexivity | exists tl; split; reflexivity].
    + rewrite PipelineProps.scanShots_last in Ho.
      destruct (isShot f) eqn:Hshot;
        [|subst o; right; left; split; [reflexivity | exists tl; split; reflexivity]].
      unfold ret at 1 in Ho.
      destruct (getShotID e (filepath_Join (currentDir tl) (Name f))) as [id|msg] eqn:Hid;
        [|subst o; right; left; split; [reflexivity | exists tl; split; reflexivity]].
      right; right; right; right. split; [reflexivity|].
      exists tl, st, (pre ++ [f])%list, f, id. split; [reflexivity|].
      repeat split; try assumption. now exists pre.
  - destruct (Online st) eqn:Hon; cbn [negb] in Ho; [|subst o; now left].
    destruct (timelapseShouldStart (State st)) eqn:Hstart; [|subst o; now left].
    unfold startTimelapse in Ho.
    destruct (mkdirTemp e _) as [dir|msg] eqn:Hdir; [|subst o; now left].
    destruct (waitForProgress st (waitEvents e)) as [st'| |] eqn:Hwait;
      [|subst o; now left|subst o; now left].
    destruct (cmdStart e) eqn:Hcmd.
    + right; right; right; left. split; [reflexivity|].
      exists st, st', dir. repeat split; assumption.
    + right; right; left. split; [reflexivity|].
      destruct w as [running tl mutex pid t]. cbn in Hm. subst. reflexivity.
Qed.

(** X7: an idle camera starts a session exactly when the poll answers
    with an online printer in a state of START, the temporary directory is
    made, progress is seen before the context ends, and the capture process
    starts.  The directory is named after the job of the first status, the
    session after the job of the status that showed progress; the lock is
    free again when the tick returns. *)
Theorem session_starts_exactly_when_startable (e : Env) (w : World) :
  tlRunning w = false -> rpicamMutex w = false ->
  (tlRunning (world_of (handleTimelapse e w)) = true <->
   exists st st' dir, startable e st st' dir) /\
  (forall st st' dir,
     startable e st st' dir ->
     handleTimelapse e w = Done tt (afterStart e st' dir w)).
Proof.
  intros Hrun Hm. split; [split|].
  - intros Hnow.
    destruct (handleTimelapse_cases e w Hm)
      as [H|[[H _]|[[_ H]|[[_ H]|[H _]]]]]; try congruence.
    rewrite H in Hnow. destruct w; cbn in *. congruence.
  - intros (st & st' & dir & Hs).
    rewrite (start_when_startable e w st st' dir Hrun Hm Hs). reflexivity.
  - intros st st' dir Hs. now apply start_when_startable with (st := st).
Qed.

Lemma session_starts_exactly_when_startable_witness :
  handleTimelapse (sampleEnv (Ok printing) [] []) newWorld =
    Done tt (afterStart (sampleEnv (Ok printing) [] []) printing "/tmp/timelapse17" newWorld).
Proof.
  apply (proj2 (session_starts_exactly_when_startable
                  (sampleEnv (Ok printing) [] []) newWorld eq_refl eq_refl)
               printing printing "/tmp/timelapse17").
  repeat split; reflexivity.
Defined.

(** X8: a running session ends exactly when the poll answers with a state
    of STOP, the session's directory can be listed, its last entry is a
    frame and the frame's number can be read.  Then the capture process has
    been waited for, the hero shot taken under the lock, the video ordered
    with the length of the whole listing, and the session cleared, whether or
    not the hero shot or its copies succeeded. *)
Theorem session_ends_exactly_when_finishable (e : Env) (w : World) (tl : timelapse) :
  svc_timelapse w = Some tl -> tlRunning w = true -> rpicamMutex w = false ->
  (tlRunning (world_of (handleTimelapse e w)) = false <->
   exists st files f id, finishable e tl st files f id) /\
  (forall st files f id,
     finishable e tl st files f id ->
     exists cps,
       onlyCp cps /\
       handleTimelapse e w = Done tt (afterFinish tl (len files) id cps w)).
Proof.
  intros Htl Hrun Hm. split; [split|].
  - intros Hnow.
    destruct (handleTimelapse_cases e w Hm)
      as [H|[[_ (tl' & _ & H)]|[[H _]|[[H _]|[_ H]]]]]; try congruence.
    + rewrite H in Hnow. destruct w; cbn in *. congruence.
    + destruct H as (tl' & st & files & f & id & Htl' & Hf).
      assert (tl' = tl) by congruence. subst tl'. now exists st, files, f, id.
  - intros (st & files & f & id & Hf).
    destruct (finish_when_finishable e w tl st files f id Htl Hrun Hm Hf)
      as (cps & _ & ->).
    reflexivity.
  - intros st files f id Hf.
    apply (finish_when_finishable e w tl st files f id); assumption.
Qed.

Lemma session_ends_exactly_when_finishable_witness :
  tlRunning (world_of (handleTimelapse (sampleEnv (Ok finished) [frame 0] [])
                                       startedWorld)) = false.
Proof.
  apply (proj1 (session_ends_exactly_when_finishable
                  (sampleEnv (Ok finished) [frame 0] []) startedWorld
                  {| currentDir := "/tmp/timelapse17"; startTime := 1000 * second;
                     jobID := 17; jobName_ := "bracket.gcode";
                     timelapseCommand := 0%nat |}
                  eq_refl eq_refl eq_refl)).
  exists finished, [frame 0], (frame 0), 0.
  repeat split; try reflexivity. now exists [].
Defined.

(** Copies are neither captures nor videos. *)
Lemma onlyCp_counts (cps t : list event) :
  onlyCp cps ->
  captures (cps ++ t) = captures t /\ builds (cps ++ t) = builds t.
Proof.
  induction 1 as [|ev cps (src & dst & ->) _ IH]; [split; reflexivity|].
  exact IH.
Qed.

Lemma handleTimelapse_balanced (e : Env) (w : World) :
  balanced w -> balanced (world_of (handleTimelapse e w)).
Proof.
  intros [Hm Hb].
  destruct (handleTimelapse_cases e w Hm)
    as [H|[(Hrun & tl & Htl & H)|[[Hrun H]|[(Hrun & st & st' & dir & Hs)
        |(Hrun & tl & st & files & f & id & Htl & Hf)]]]].
  - rewrite H. now split.
  - rewrite H. split; [exact Hm | exact Hb].
  - rewrite H. split; [exact Hm | exact Hb].
  - rewrite (start_when_startable e w st st' dir Hrun Hm Hs).
    split; [reflexivity|]. rewrite Hrun in Hb. cbn. rewrite Hb. lia.
  - destruct (finish_when_finishable e w tl st files f id Htl Hrun Hm Hf)
      as (cps & Hcp & ->).
    split; [reflexivity|]. rewrite Hrun in Hb.
    destruct (onlyCp_counts cps
                (EvExit (nextPid w)
                   :: EvSpawn Still (nextPid w) (shotFilename (currentDir tl) id)
                   :: EvLock :: EvExit (timelapseCommand tl) :: trace w) Hcp)
      as [Hc Hv].
    cbn. cbn in Hc, Hv. rewrite Hc, Hv, Hb. lia.
Qed.

Lemma Snapshot_balanced (tmpDir : string) (e : Env) (w : World) :
  balanced w -> balanced (world_of (Snapshot tmpDir e w)).
Proof.
  destruct w as [running tl mutex pid t]. intros [Hm Hb]. cbn in Hm, Hb. subst mutex.
  unfold Snapshot, isTimelapseRunning. exec. destruct running; cbn [negb].
  - unfold LastTLShot. exec. destruct tl as [tl|]; exec; [|now split].
    destruct (lastTLShotInternal_cases e (currentDir tl)
                {| tlRunning := true; svc_timelapse := Some tl; rpicamMutex := false;
                   nextPid := pid; trace := t |}) as [->|[r ->]]; [now split|].
    destruct r as [[name count]|msg]; exec; [|now split].
    destruct (readFile e name); now split.
  - unfold takeShot. exec. destruct (stillRun e); exec; [|now split].
    destruct (readFile e _); now split.
Qed.

(** X9: along every run of ticks and snapshots from the start of the
    service, the capture processes started for a time-lapse are the videos
    ordered, and one more while a session is running: a session has one
    capture process, an ended session has ordered one video, and snapshots
    start neither. *)
Theorem one_capture_and_one_video_per_session (tmpDir : string) (ops : list op) :
  captures (trace (run tmpDir ops newWorld)) =
    (builds (trace (run tmpDir ops newWorld)) +
     if tlRunning (run tmpDir ops newWorld) then 1 else 0)%nat.
Proof.
  assert (Hgen : forall w, balanced w -> balanced (run tmpDir ops w)).
  { induction ops as [|o ops IH]; intros w Hw; [exact Hw|].
    cbn [run]. destruct o as [e|e]; cbn [step].
    - pose proof (handleTimelapse_balanced e w Hw) as H.
      destruct (handleTimelapse e w); cbn in H; auto.
    - pose proof (Snapshot_balanced tmpDir e w Hw) as H.
      unfold bind, ret. destruct (Snapshot tmpDir e w); cbn in H; auto. }
  apply (Hgen newWorld). split; reflexivity.
Qed.

Lemma cpPairs_shift (name dir : string) (i : Z) (n : nat) (l : list (string * string)) :
  ((l ++ [(name, shotFilename dir i)]) ++
   map (fun k => (name, shotFilename dir (i + 1 + Z.of_nat k))) (seq 0 n))%list =
  (l ++ map (fun k => (name, shotFilename dir (i + Z.of_nat k))) (seq 0 (S n)))%list.
Proof.
  rewrite <- app_assoc. f_equal. cbn [seq map app]. f_equal.
  - now rewrite Z.add_0_r.
  - rewrite <- seq_shift, map_map. apply map_ext. intros k.
    do 2 f_equal. lia.
Qed.

(** The copy loop when every copy succeeds. *)
Lemma cpLoop_all (e : Env) (name dir : string) (hi : Z) (fuel : nat) :
  forall (i : Z) (w : World),
    (Z.to_nat (hi - i) < fuel)%nat ->
    (forall j, i <= j < hi -> cpRun e name (shotFilename dir j) = true) ->
    exists cps,
      cpLoop e name dir i hi fuel w = Done (Ok tt) (withTrace (cps ++ trace w) w) /\
      cpPairs (cps ++ trace w) =
        (cpPairs (trace w) ++
         map (fun k => (name, shotFilename dir (i + Z.of_nat k)))
             (seq 0 (Z.to_nat (hi - i))))%list.
Proof.
  induction fuel as [|fuel IH]; intros i w Hfuel Hcp; [lia|].
  cbn [cpLoop]. destruct (Z.ltb_spec i hi) as [Hlt|Hge].
  - unfold bind at 1, emit. rewrite (Hcp i) by lia.
    destruct (IH (i + 1) (withTrace (EvCp name (shotFilename dir i) :: trace w) w))
      as (cps & Heq & Hp); [lia | intros j Hj; apply Hcp; lia |].
    exists (cps ++ [EvCp name (shotFilename dir i)])%list.
    unfold withTrace in *. cbn [trace tlRunning svc_timelapse rpicamMutex nextPid] in *.
    rewrite <- app_assoc. split; [exact Heq|].
    cbn [app]. rewrite Hp. cbn [cpPairs].
    replace (Z.to_nat (hi - i)) with (S (Z.to_nat (hi - (i + 1)))) by lia.
    apply cpPairs_shift.
  - exists []. replace (Z.to_nat (hi - i)) with 0%nat by lia.
    cbn [app seq map]. rewrite app_nil_r. split; [|reflexivity].
    destruct w; reflexivity.
Qed.

(** The copy loop when the copy to number [j] is the first to fail. *)
Lemma cpLoop_fail (e : Env) (name dir : string) (hi j : Z) (fuel : nat) :
  forall (i : Z) (w : World),
    (Z.to_nat (hi - i) < fuel)%nat ->
    i <= j < hi ->
    (forall k, i <= k < j -> cpRun e name (shotFilename dir k) = true) ->
    cpRun e name (shotFilename dir j) = false ->
    exists cps,
      cpLoop e name dir i hi fuel w =
        Done (Err "fail to cp shot") (withTrace (cps ++ trace w) w) /\
      cpPairs (cps ++ trace w) =
        (cpPairs (trace w) ++
         map (fun k => (name, shotFilename dir (i + Z.of_nat k)))
             (seq 0 (S (Z.to_nat (j - i)))))%list.
Proof.
  induction fuel as [|fuel IH]; intros i w Hfuel Hj Hcp Hbad; [lia|].
  cbn [cpLoop]. destruct (Z.ltb_spec i hi) as [Hlt|Hge]; [|lia].
  unfold bind at 1, emit.
  destruct (Z.eq_dec i j) as [->|Hne].
  - rewrite Hbad. exists [EvCp name (shotFilename dir j)].
    split; [reflexivity|].
    rewrite Z.sub_diag. cbn. now rewrite Z.add_0_r.
  - rewrite (Hcp i) by lia.
    destruct (IH (i + 1) (withTrace (EvCp name (shotFilename dir i) :: trace w) w))
      as (cps & Heq & Hp); [lia | lia | intros k Hk; apply Hcp; lia | exact Hbad |].
    exists (cps ++ [EvCp name (shotFilename dir i)])%list.
    unfold withTrace in *. cbn [trace tlRunning svc_timelapse rpicamMutex nextPid] in *.
    rewrite <- app_assoc. split; [exact Heq|].
    cbn [app]. rewrite Hp. cbn [cpPairs].
    replace (S (Z.to_nat (j - i))) with (S (S (Z.to_nat (j - (i + 1))))) by lia.
    apply cpPairs_shift.
Qed.

(** X10: when the still capture and every copy succeed, the hero shot is
    copied [count + 1] times: first onto itself, then to the [count] numbers
    that follow; the lock is free again at the end. *)
Theorem hero_shot_copied_onto_itself_first (e : Env) (dir : string)
        (lastID count : Z) (w : World) :
  rpicamMutex w = false -> stillRun e = true -> 0 <= count ->
  (forall j, lastID <= j <= lastID + count ->
     cpRun e (shotFilename dir lastID) (shotFilename dir j) = true) ->
  exists w',
    takeLastShot e dir lastID count w = Done (Ok tt) w' /\
    rpicamMutex w' = false /\
    cpPairs (trace w') =
      (cpPairs (trace w) ++
       (shotFilename dir lastID, shotFilename dir lastID)
       :: map (fun k => (shotFilename dir lastID,
                         shotFilename dir (lastID + 1 + Z.of_nat k)))
              (seq 0 (Z.to_nat count)))%list.
Proof.
  destruct w as [running tl mutex pid t]. cbn [rpicamMutex trace].
  intros -> Hstill Hcount Hcp.
  unfold takeLastShot. exec. rewrite Hstill. exec.
  match goal with
  | |- context [cpLoop ?e ?n ?d ?i ?hi ?f ?w0] =>
      destruct (cpLoop_all e n d hi f i w0) as (cps & -> & Hp);
        [lia | intros j Hj; apply Hcp; lia |]
  end.
  unfold withTrace. exec.
  eexists. split; [reflexivity|]. split; [reflexivity|].
  cbn [trace cpPairs] in Hp |- *. rewrite Hp.
  replace (Z.to_nat (lastID + count + 1 - lastID)) with (S (Z.to_nat count)) by lia.
  rewrite <- cpPairs_shift, <- app_assoc. reflexivity.
Qed.

Lemma hero_shot_copied_onto_itself_first_witness :
  exists w',
    takeLastShot (sampleEnv (Ok finished) [] []) "/tmp/timelapse17" 41 2 newWorld =
      Done (Ok tt) w' /\
    rpicamMutex w' = false /\
    cpPairs (trace w') =
      [("/tmp/timelapse17/image    41.jpg", "/tmp/timelapse17/image    41.jpg");
       ("/tmp/timelapse17/image    41.jpg", "/tmp/timelapse17/image    42.jpg");
       ("/tmp/timelapse17/image    41.jpg", "/tmp/timelapse17/image    43.jpg")].
Proof.
  apply (hero_shot_copied_onto_itself_first
           (sampleEnv (Ok finished) [] []) "/tmp/timelapse17" 41 2 newWorld
           eq_refl eq_refl); [lia | reflexivity].
Defined.

(** X11: the hero shot's errors.  When the still capture fails no copy is
    made.  When the copy to number [j] is the first to fail, the copies up to
    that one have been tried and no later one.  Either way the call returns
    the error with the lock free again. *)
Theorem hero_shot_stops_at_first_failure (e : Env) (dir : string)
        (lastID count : Z) (w : World) :
  rpicamMutex w = false ->
  (stillRun e = false ->
   exists w',
     takeLastShot e dir lastID count w = Done (Err "fail to run rpicam-still") w' /\
     rpicamMutex w' = false /\ cpPairs (trace w') = cpPairs (trace w)) /\
  (forall j,
     stillRun e = true -> lastID <= j <= lastID + count ->
     (forall k, lastID <= k < j ->
        cpRun e (shotFilename dir lastID) (shotFilename dir k) = true) ->
     cpRun e (shotFilename dir lastID) (shotFilename dir j) = false ->
     exists w',
       takeLastShot e dir lastID count w = Done (Err "fail to cp shot") w' /\
       rpicamMutex w' = false /\
       cpPairs (trace w') =
         (cpPairs (trace w) ++
          map (fun k => (shotFilename dir lastID,
                         shotFilename dir (lastID + Z.of_nat k)))
              (seq 0 (S (Z.to_nat (j - lastID)))))%list).
Proof.
  destruct w as [running tl mutex pid t]. cbn [rpicamMutex trace].
  intros ->. split.
  - intros Hstill. unfold takeLastShot. exec. rewrite Hstill. exec.
    eexists. repeat split.
  - intros j Hstill Hj Hcp Hbad.
    unfold takeLastShot. exec. rewrite Hstill. exec.
    match goal with
    | |- context [cpLoop ?e ?n ?d ?i ?hi ?f ?w0] =>
        destruct (cpLoop_fail e n d hi j f i w0) as (cps & -> & Hp);
          [lia | lia | exact Hcp | exact Hbad |]
    end.
    unfold withTrace. exec.
    eexists. split; [reflexivity|]. split; [reflexivity|].
    cbn [trace cpPairs] in Hp |- *. exact Hp.
Qed.

Lemma hero_shot_stops_at_first_failure_witness :
  exists w',
    takeLastShot
      {| poll := Ok finished; mkdirTemp := fun p => Ok p; waitEvents := [];
         cmdStart := true; now := 0; nowMicro := 0; readDir := fun _ => Ok [];
         Sscanf_image6d := sampleScan; stillRun := true;
         cpRun := fun src dst => negb (String.eqb src dst);
         readFile := fun _ => Err "no such file" |}
      "/tmp/timelapse17" 41 2 newWorld = Done (Err "fail to cp shot") w' /\
    rpicamMutex w' = false /\
    cpPairs (trace w') =
      [("/tmp/timelapse17/image    41.jpg", "/tmp/timelapse17/image    41.jpg")].
Proof.
  apply (proj2 (hero_shot_stops_at_first_failure _ "/tmp/timelapse17" 41 2 newWorld
                  eq_refl) 41); try reflexivity; lia.
Defined.

End TickProps.

(** ** Paths *)

Module PathProps.
Import prusalinkclient camera.

Lemma list_ascii_of_string_app (s t : string) :
  list_ascii_of_string (s ++ t) = (list_ascii_of_string s ++ list_ascii_of_string t)%list.
Proof. induction s as [|c s IH]; cbn; [reflexivity | now rewrite IH]. Qed.

Lemma takeUntilSlash_app (l r : list ascii) :
  forallb (fun c => negb (Ascii.eqb c "/")) l = true ->
  takeUntilSlash (l ++ "/"%char :: r) = l.
Proof.
  induction l as [|c l IH]; cbn [forallb app takeUntilSlash]; intros H.
  - reflexivity.
  - apply andb_prop in H as [Hc Hl]. apply negb_true_iff in Hc. rewrite Hc.
    now rewrite IH.
Qed.

Lemma forallb_rev {A} (p : A -> bool) (l : list A) :
  forallb p l = true -> forallb p (rev l) = true.
Proof.
  rewrite !forallb_forall. intros H x Hx. apply H. now apply in_rev.
Qed.

(** X12: for a directory entry's name, not empty and without a slash,
    the last element of the joined path is the name again, so the frame
    number is read from the name alone, whatever the directory. *)
Theorem shot_number_read_from_entry_name (e : Env) (dir name : string) :
  name <> EmptyString ->
  forallb (fun c => negb (Ascii.eqb c "/")) (list_ascii_of_string name) = true ->
  filepath_Base (filepath_Join dir name) = name /\
  getShotID e (filepath_Join dir name) = Sscanf_image6d e name.
Proof.
  intros Hne Hfree.
  assert (Hbase : filepath_Base (filepath_Join dir name) = name).
  { unfold filepath_Base, filepath_Join.
    replace (String.eqb (dir ++ "/" ++ name) EmptyString) with false
      by (destruct dir; reflexivity).
    rewrite list_ascii_of_string_app. cbn [append list_ascii_of_string].
    rewrite rev_app_distr. cbn [rev]. rewrite <- app_assoc. cbn [app].
    pose proof (forallb_rev _ _ Hfree) as Hrev.
    destruct (rev (list_ascii_of_string name)) as [|c l] eqn:Hl.
    - exfalso. apply Hne.
      rewrite <- (string_of_list_ascii_of_string name).
      rewrite <- (rev_involutive (list_ascii_of_string name)), Hl. reflexivity.
    - pose proof Hrev as Hc. cbn [forallb] in Hc. apply andb_prop in Hc as [Hc _].
      apply negb_true_iff in Hc.
      cbn [app dropSlashes]. rewrite Hc.
      change (c :: (l ++ "/"%char :: rev (list_ascii_of_string dir))%list)
        with ((c :: l) ++ "/"%char :: rev (list_ascii_of_string dir))%list.
      rewrite (takeUntilSlash_app _ _ Hrev), <- Hl, rev_involutive.
      apply string_of_list_ascii_of_string. }
  split; [exact Hbase|]. unfold getShotID. now rewrite Hbase.
Qed.

Lemma shot_number_read_from_entry_name_witness :
  filepath_Base (filepath_Join "/tmp/timelapse17" "image000041.jpg") = "image000041.jpg" /\
  getShotID (sampleEnv (Ok finished) [] [])
            (filepath_Join "/tmp/timelapse17" "image000041.jpg") = Ok 41.
Proof.
  apply (shot_number_read_from_entry_name
           (sampleEnv (Ok finished) [] []) "/tmp/timelapse17" "image000041.jpg");
    [discriminate | reflexivity].
Defined.

End PathProps.

(** ** The frame rate *)

Module RateProps.
Import camera.

Lemma quot_nonneg_cases (count v : Z) :
  0 <= count -> v <> 0 ->
  (0 < v /\ Z.quot count v = count / v /\ 0 <= count / v <= count) \/
  (v < 0 /\ - count <= Z.quot count v <= 0).
Proof.
  intros Hc Hv. destruct (Z.lt_trichotomy v 0) as [Hneg|[H0|Hpos]]; [|lia|].
  - right. split; [exact Hneg|].
    replace v with (- - v) by lia. rewrite Z.quot_opp_r by lia.
    rewrite Z.quot_div_nonneg by lia.
    assert (0 <= count / - v) by (apply Z.div_pos; lia).
    assert (count / - v <= count) by (apply Z.div_le_upper_bound; nia).
    lia.
  - left. split; [exact Hpos|]. rewrite Z.quot_div_nonneg by lia.
    split; [reflexivity|]. split; [apply Z.div_pos; lia|].
    apply Z.div_le_upper_bound; nia.
Qed.

(** X13: the frame rate for a listing of [count] entries.  The division
    panics exactly when the configured video length is zero.  Otherwise the
    rate is never below the configured minimum, and when it is above the
    minimum the video length is positive and the video lasts at least that
    long: [fps * length <= count < (fps + 1) * length]. *)
Theorem fps_at_least_minimum (config : TimelapseConfig) (count : Z) :
  0 <= count -> in_int64 count -> 0 <= MinFPS config ->
  (buildVideo_fps config count = None <-> VideoLenght config = 0) /\
  (forall fps,
     buildVideo_fps config count = Some fps ->
     MinFPS config <= fps /\
     (MinFPS config < fps ->
      0 < VideoLenght config /\
      fps * VideoLenght config <= count < (fps + 1) * VideoLenght config)).
Proof.
  intros Hc Rc Hm. unfold buildVideo_fps.
  destruct (Z.eqb_spec (VideoLenght config) 0) as [E|E].
  - split; [split; [intros _; exact E | reflexivity] | discriminate].
  - split; [split; [discriminate | contradiction]|].
    intros fps H. injection H as <-.
    unfold in_int64 in Rc.
    destruct (quot_nonneg_cases count (VideoLenght config) Hc E)
      as [(Hv & Hq & Hb)|(Hv & Hb)];
      (rewrite PipelineProps.wrap64_small by (unfold in_int64; lia)).
    + rewrite Hq. split; [lia|]. intros Hgt. split; [exact Hv|].
      assert (Hfps : Z.max (count / VideoLenght config) (MinFPS config)
                     = count / VideoLenght config) by lia.
      rewrite Hfps.
      pose proof (Z.mul_div_le count (VideoLenght config) Hv).
      pose proof (Z.mul_succ_div_gt count (VideoLenght config) Hv).
      lia.
    + split; [lia|]. intros Hgt. lia.
Qed.

Lemma fps_at_least_minimum_witness :
  (buildVideo_fps defaultConfig 3 = None <-> VideoLenght defaultConfig = 0) /\
  (forall fps,
     buildVideo_fps defaultConfig 3 = Some fps ->
     MinFPS defaultConfig <= fps /\
     (MinFPS defaultConfig < fps ->
      0 < VideoLenght defaultConfig /\
      fps * VideoLenght defaultConfig <= 3 < (fps + 1) * VideoLenght defaultConfig)).
Proof.
  apply (fps_at_least_minimum defaultConfig 3); unfold in_int64; cbn; lia.
Defined.

End RateProps.

(** ** Snapshots *)

Module SnapProps.
Import prusalinkclient camera MachineProps.

(** X14: a snapshot taken while no session runs.  With the lock taken it
    does not wait: it returns an error having started no process.  With the
    lock free it runs one still capture under the lock, writing
    [tmpDir/<microseconds>.jpg], and frees the lock; only when the capture
    succeeded is that same file read, and the bytes read are the answer. *)
Theorem idle_snapshot_takes_its_own_shot (tmpDir : string) (e : Env) (w : World) :
  tlRunning w = false ->
  (rpicamMutex w = true ->
   Snapshot tmpDir e w =
     Done (Err "fail to take shot") (withTrace (EvTryLock false :: trace w) w)) /\
  (rpicamMutex w = false ->
   exists w',
     Snapshot tmpDir e w =
       Done (if stillRun e then
               match readFile e (filepath_Join tmpDir (Itoa (nowMicro e) ++ ".jpg")) with
               | Ok shot => Ok shot
               | Err _ => Err "fail to read shot"
               end
             else Err "fail to take shot") w' /\
     rpicamMutex w' = false /\ sameSession w w' /\
     trace w' =
       ((if stillRun e
         then [EvReadFile (filepath_Join tmpDir (Itoa (nowMicro e) ++ ".jpg"))]
         else []) ++
        EvUnlock :: EvExit (nextPid w)
        :: EvSpawn Still (nextPid w) (filepath_Join tmpDir (Itoa (nowMicro e) ++ ".jpg"))
        :: EvTryLock true :: trace w)%list).
Proof.
  destruct w as [running tl mutex pid t]. cbn [tlRunning rpicamMutex trace nextPid].
  intros ->. split; intros ->.
  - unfold Snapshot, isTimelapseRunning, takeShot. exec. reflexivity.
  - unfold Snapshot, isTimelapseRunning, takeShot. exec.
    destruct (stillRun e); exec.
    + destruct (readFile e _); eexists; repeat split.
    + eexists; repeat split.
Qed.

Lemma idle_snapshot_takes_its_own_shot_witness :
  Snapshot "/tmp/cam" (sampleEnv (Ok idle) [] []) (withTrace [EvLock] 
    {| tlRunning := false; svc_timelapse := None; rpicamMutex := true;
       nextPid := 0; trace := [] |}) =
  Done (Err "fail to take shot")
       {| tlRunning := false; svc_timelapse := None; rpicamMutex := true;
          nextPid := 0; trace := [EvTryLock false; EvLock] |}.
Proof.
  apply (proj1 (idle_snapshot_takes_its_own_shot "/tmp/cam" (sampleEnv (Ok idle) [] [])
                  (withTrace [EvLock]
                     {| tlRunning := false; svc_timelapse := None; rpicamMutex := true;
                        nextPid := 0; trace := [] |}) eq_refl)).
  reflexivity.
Defined.

(** A snapshot starts no time-lapse capture, orders no video and leaves the
    session alone. *)
Lemma Snapshot_counts (tmpDir : string) (e : Env) (w : World) :
  sameSession w (world_of (Snapshot tmpDir e w)) /\
  captures (trace (world_of (Snapshot tmpDir e w))) = captures (trace w) /\
  builds (trace (world_of (Snapshot tmpDir e w))) = builds (trace w).
Proof.
  split; [apply Snapshot_session|].
  destruct w as [running tl mutex pid t].
  unfold Snapshot, isTimelapseRunning. exec. destruct running; cbn [negb].
  - unfold LastTLShot. exec. destruct tl as [tl|]; exec; [|now split].
    destruct (lastTLShotInternal_cases e (currentDir tl)
                {| tlRunning := true; svc_timelapse := Some tl; rpicamMutex := mutex;
                   nextPid := pid; trace := t |}) as [->|[r ->]]; [now split|].
    destruct r as [[name count]|msg]; exec; [|now split].
    destruct (readFile e name); now split.
  - unfold takeShot. exec. destruct mutex; exec; [now split|].
    destruct (stillRun e); exec; [|now split].
    destruct (readFile e _); now split.
Qed.

(** X15: with the time-lapse disabled the poll loop is never started, so
    only snapshots reach the camera: whatever they are, no session is ever
    started, no time-lapse capture runs and no video is ordered. *)
Theorem disabled_timelapse_never_starts (config : TimelapseConfig)
        (tmpDir : string) (ops : list op) :
  Enabled config = false ->
  tlRunning (run tmpDir (reaching config ops) newWorld) = false /\
  svc_timelapse (run tmpDir (reaching config ops) newWorld) = None /\
  captures (trace (run tmpDir (reaching config ops) newWorld)) = 0%nat /\
  builds (trace (run tmpDir (reaching config ops) newWorld)) = 0%nat.
Proof.
  intros Hoff. unfold reaching. rewrite Hoff.
  assert (Hgen : forall w,
            tlRunning (run tmpDir (filter isSnap ops) w) = tlRunning w /\
            svc_timelapse (run tmpDir (filter isSnap ops) w) = svc_timelapse w /\
            captures (trace (run tmpDir (filter isSnap ops) w)) = captures (trace w) /\
            builds (trace (run tmpDir (filter isSnap ops) w)) = builds (trace w)).
  { induction ops as [|o ops IH]; intros w; [repeat split|].
    destruct o as [e|e]; cbn [filter isSnap]; [apply IH|].
    cbn [run step]. destruct (Snapshot_counts tmpDir e w) as ([Hr Hs] & Hc & Hb).
    unfold bind, ret. destruct (Snapshot tmpDir e w) as [r w'|w'|w'];
      cbn [world_of] in Hr, Hs, Hc, Hb.
    - destruct (IH w') as (H1 & H2 & H3 & H4). repeat split; congruence.
    - destruct (IH w') as (H1 & H2 & H3 & H4). repeat split; congruence.
    - repeat split; assumption. }
  exact (Hgen newWorld).
Qed.

Lemma disabled_timelapse_never_starts_witness :
  tlRunning (run "/tmp/cam"
               (reaching {| Enabled := false; Interval := 20; Loglevel := "info";
                            VideoLenght := 7; OutputDir := "~/timelapses/"; MinFPS := 12 |}
                         [Tick (sampleEnv (Ok printing) [] []);
                          Snap (sampleEnv (Ok printing) [] [])])
               newWorld) = false.
Proof.
  apply (disabled_timelapse_never_starts
           {| Enabled := false; Interval := 20; Loglevel := "info";
              VideoLenght := 7; OutputDir := "~/timelapses/"; MinFPS := 12 |}
           "/tmp/cam" _ eq_refl).
Defined.

End SnapProps.

(** ** The sender and the handlers *)

Module ServiceProps.
Import prusalinkclient camera service.

(** X16: the handler of [/forcesend] answers 204 or 500, and 204 exactly
    when the camera gave a frame and the PUT got a response: whatever the
    status code of that response, the frame counts as sent.  The camera is
    left as the one snapshot left it. *)
Theorem forcesend_answers_204_whatever_the_reply
        (tmpDir : string) (se : sendEnv) (s : svcState)
        (a : server.answer) (s' : svcState) :
  server.ForceSend tmpDir se s = SvcDone a s' ->
  (server.statusCode a = 204 \/ server.statusCode a = 500) /\
  svcCam s' = world_of (camera.Snapshot tmpDir (camEnv se) (svcCam s)) /\
  (server.statusCode a = 204 <->
   exists frame w code read,
     camera.Snapshot tmpDir (camEnv se) (svcCam s) = Done (Ok frame) w /\
     put se frame = PutResponse code read /\
     svcPuts s' = frame :: svcPuts s).
Proof.
  unfold server.ForceSend, ForceSend, sendSnapshot, Snapshot.
  destruct (camera.Snapshot tmpDir (camEnv se) (svcCam s)) as [[frame|msg] w|w|w];
    try discriminate.
  - destruct (put se frame) as [| |code read] eqn:Hput;
      intros H; injection H as <- <-; cbn.
    + split; [now right|]. split; [reflexivity|].
      split; [discriminate|]. intros (f & w0 & c & r & H & Hp & _).
      injection H as <- <-. congruence.
    + split; [now right|]. split; [reflexivity|].
      split; [discriminate|]. intros (f & w0 & c & r & H & Hp & _).
      injection H as <- <-. congruence.
    + split; [now left|]. split; [reflexivity|].
      split; [|reflexivity]. intros _. now exists frame, w, code, read.
  - intros H; injection H as <- <-; cbn.
    split; [now right|]. split; [reflexivity|].
    split; [discriminate|]. intros (f & w0 & c & r & H & _). discriminate.
Qed.

Lemma forcesend_answers_204_whatever_the_reply_witness :
  exists s',
    server.ForceSend "/tmp/cam"
      {| camEnv := sampleEnv (Ok idle) [] [x2a; x2b]%byte;
         put := fun _ => PutResponse 401 true |}
      NewService =
    SvcDone {| server.statusCode := 204; server.jpeg := None |} s' /\
    svcPuts s' = [[x2a; x2b]%byte].
Proof.
  eexists. split; [reflexivity|].
  destruct (proj2 (proj2 (forcesend_answers_204_whatever_the_reply
              "/tmp/cam"
              {| camEnv := sampleEnv (Ok idle) [] [x2a; x2b]%byte;
                 put := fun _ => PutResponse 401 true |}
              NewService _ _ eq_refl))) as [H _].
  destruct (H eq_refl) as (frame & w & code & read & Hs & _ & Hp).
  injection Hs as <- _. exact Hp.
Defined.

(** X17: one round of the sender.  When the printer gives no status or
    is offline, the round ends with the camera untouched and nothing sent.
    When it answers online, the round is one [sendSnapshot]: one snapshot
    of the camera and at most one frame sent. *)
Theorem sender_round_sends_only_when_online
        (tmpDir : string) (pe : pollEnv) (se : sendEnv) (s : svcState) :
  cachedTime (svcLink s) <= nowLookup pe ->
  match jobStatus (http pe) with
  | Ok st =>
      if Online st then
        state_of (senderRound tmpDir pe se s) =
          state_of (sendSnapshot tmpDir se
                      (withLink (jobStatusToCache (svcLink s) st (nowStore pe)) s)) /\
        (List.length (svcPuts (state_of (senderRound tmpDir pe se s)))
         <= S (List.length (svcPuts s)))%nat
      else
        senderRound tmpDir pe se s =
          SvcDone tt (withLink (jobStatusToCache (svcLink s) st (nowStore pe)) s)
  | Err _ =>
      senderRound tmpDir pe se s =
        SvcDone tt (withLink {| cachedStatus := None;
                                cachedTime := cachedTime (svcLink s) |} s)
  end.
Proof.
  intros Hc. unfold senderRound, JobStatus.
  rewrite CacheProps.jobStatusFromCache_evicts by (unfold second; lia).
  destruct (jobStatus (http pe)) as [st|msg]; cbn [fst snd]; [|reflexivity].
  destruct (Online st); cbn [negb]; [|reflexivity].
  unfold jobStatusToCache.
  set (s1 := withLink _ s).
  assert (Hp : svcPuts s1 = svcPuts s) by reflexivity.
  unfold sendSnapshot, Snapshot.
  destruct (camera.Snapshot tmpDir (camEnv se) (svcCam s1)) as [[frame|m] w|w|w];
    cbn; rewrite ?Hp; try (split; [reflexivity | lia]).
  destruct (put se frame); cbn; rewrite ?Hp; split; try reflexivity; lia.
Qed.

Lemma sender_round_sends_only_when_online_witness :
  senderRound "/tmp/cam" timedOutPoll
    {| camEnv := sampleEnv (Ok idle) [] []; put := fun _ => PutResponse 204 true |}
    NewService =
  SvcDone tt (withLink (jobStatusToCache NewClient zeroStatus (100 * second)) NewService).
Proof.
  apply (sender_round_sends_only_when_online "/tmp/cam" timedOutPoll
           {| camEnv := sampleEnv (Ok idle) [] []; put := fun _ => PutResponse 204 true |}
           NewService).
  cbn. unfold second. lia.
Defined.

End ServiceProps.

(** ** The USB camera *)

Module UsbProps.
Import camera usbcamera.

Lemma pickFormat_spec (formatDesc : list (Z * string)) :
  pickFormat formatDesc =
    if existsb (Z.eqb V4L2_PIX_FMT_YUYV) (map fst formatDesc)
    then V4L2_PIX_FMT_YUYV else 0.
Proof.
  induction formatDesc as [|[f desc] rest IH]; [reflexivity|].
  cbn [pickFormat map fst existsb lookup supportedFormats].
  destruct (Z.eqb_spec f V4L2_PIX_FMT_PJPG) as [->|_]; [exact IH|].
  rewrite (Z.eqb_sym V4L2_PIX_FMT_YUYV f).
  destruct (Z.eqb_spec f V4L2_PIX_FMT_YUYV) as [->|_]; [reflexivity | exact IH].
Qed.

Lemma existsb_Permutation {A} (p : A -> bool) (l l' : list A) :
  Permutation l l' -> existsb p l = existsb p l'.
Proof.
  induction 1 as [|x l l' _ IH|x y l|l l' l'' _ IH1 _ IH2]; cbn.
  - reflexivity.
  - now rewrite IH.
  - destruct (p x), (p y); reflexivity.
  - congruence.
Qed.

(** X18: the format picked does not depend on the order in which the
    loop meets the entries of the map: it is YUYV when the camera offers
    YUYV and the zero format, which [NewUSBCamera] refuses, otherwise; a
    camera that offers PJPG alone gets no format. *)
Theorem format_picked_whatever_the_order (formatDesc : list (Z * string)) :
  (pickFormat formatDesc = V4L2_PIX_FMT_YUYV \/ pickFormat formatDesc = 0) /\
  (pickFormat formatDesc = V4L2_PIX_FMT_YUYV <->
   In V4L2_PIX_FMT_YUYV (map fst formatDesc)) /\
  (forall formatDesc',
     Permutation formatDesc formatDesc' ->
     pickFormat formatDesc' = pickFormat formatDesc) /\
  (forall d,
     GetSupportedFormats d = formatDesc -> Open d = true ->
     (NewUSBCamera d = Some (Err "found no supported formats") <->
      ~ In V4L2_PIX_FMT_YUYV (map fst formatDesc))).
Proof.
  assert (Hin : existsb (Z.eqb V4L2_PIX_FMT_YUYV) (map fst formatDesc) = true <->
                In V4L2_PIX_FMT_YUYV (map fst formatDesc)).
  { rewrite existsb_exists. split.
    - intros (x & Hx & Heq). apply Z.eqb_eq in Heq. now subst.
    - intros H. exists V4L2_PIX_FMT_YUYV. split; [exact H | apply Z.eqb_refl]. }
  assert (Hiff : pickFormat formatDesc = V4L2_PIX_FMT_YUYV <->
                 In V4L2_PIX_FMT_YUYV (map fst formatDesc)).
  { rewrite <- Hin, pickFormat_spec.
    destruct (existsb _ _); split; try reflexivity; discriminate. }
  split; [|split; [exact Hiff|split]].
  - rewrite pickFormat_spec. destruct (existsb _ _); [now left | now right].
  - intros formatDesc' Hperm. rewrite !pickFormat_spec.
    rewrite (existsb_Permutation _ _ _ (Permutation_map fst Hperm)). reflexivity.
  - intros d Hd Hopen. unfold NewUSBCamera. rewrite Hopen, Hd. cbn [negb].
    rewrite <- Hiff, pickFormat_spec.
    destruct (existsb _ _).
    + cbn [Z.eqb V4L2_PIX_FMT_YUYV].
      split; [|intros H; now contradiction H].
      destruct (lastSize _) as [size|]; [|discriminate].
      destruct (SetImageFormat d _ _ _) as [[[f w] h]|msg]; [|discriminate].
      destruct (StartStreaming d); discriminate.
    + cbn [Z.eqb]. split; [discriminate | reflexivity].
Qed.

Lemma StronglySorted_app_last {A} (R : A -> A -> Prop) (pre : list A) (l : A) :
  StronglySorted R (pre ++ [l])%list -> Forall (fun f => R f l) pre.
Proof.
  induction pre as [|a pre IH]; cbn; intros Hs; [constructor|].
  apply StronglySorted_inv in Hs as [Hs Ha].
  constructor; [|now apply IH].
  rewrite Forall_forall in Ha. apply Ha, in_or_app. right. now left.
Qed.

(** The last of a sorted slice is one of the sizes and none has a larger
    area. *)
Lemma lastSize_largest (sizes sorted : list FrameSize) :
  sortedBy sizes sorted ->
  match lastSize sorted with
  | None => sizes = []
  | Some s => In s sizes /\ forall s', In s' sizes -> area s' <= area s
  end.
Proof.
  intros [Hperm Hsorted]. unfold lastSize.
  destruct sorted as [|a sorted'] using rev_ind.
  - cbn. now apply Permutation_sym, Permutation_nil in Hperm.
  - clear IHsorted'. rewrite rev_app_distr. cbn [rev app].
    apply Sorted_StronglySorted in Hsorted.
    + apply StronglySorted_app_last in Hsorted. rewrite Forall_forall in Hsorted.
      split.
      * apply (Permutation_in _ (Permutation_sym Hperm)), in_or_app. right. now left.
      * intros s' Hs'. apply (Permutation_in _ Hperm), in_app_or in Hs'.
        destruct Hs' as [Hs'|[<-|[]]]; [|lia].
        specialize (Hsorted s' Hs'). unfold Less in Hsorted.
        apply Z.ltb_ge in Hsorted. exact Hsorted.
    + intros x y z Hxy Hyz. unfold Less in *.
      apply Z.ltb_ge in Hxy, Hyz. apply Z.ltb_ge. lia.
Qed.

(** X19: the camera is set to one of the frame sizes it offers for the
    format, one whose area, the product of the two maxima taken in 32 bits,
    no other size exceeds; with no size on offer [NewUSBCamera] panics.  The
    camera it returns holds the width and height the device answered and no
    frame yet. *)
Theorem largest_frame_size_is_picked (d : device) :
  Open d = true ->
  In V4L2_PIX_FMT_YUYV (map fst (GetSupportedFormats d)) ->
  sortedBy (GetSupportedFrameSizes d V4L2_PIX_FMT_YUYV)
           (sort_Sort d (GetSupportedFrameSizes d V4L2_PIX_FMT_YUYV)) ->
  (NewUSBCamera d = None <-> GetSupportedFrameSizes d V4L2_PIX_FMT_YUYV = []) /\
  (forall c,
     NewUSBCamera d = Some (Ok c) ->
     frame c = None /\
     exists s f,
       In s (GetSupportedFrameSizes d V4L2_PIX_FMT_YUYV) /\
       (forall s', In s' (GetSupportedFrameSizes d V4L2_PIX_FMT_YUYV) ->
                   area s' <= area s) /\
       SetImageFormat d V4L2_PIX_FMT_YUYV (MaxWidth s) (MaxHeight s) =
         Ok (f, imageWidth c, imageHeight c)).
Proof.
  intros Hopen Hin Hsort.
  pose proof (lastSize_largest _ _ Hsort) as Hlast.
  unfold NewUSBCamera. rewrite Hopen. cbn [negb].
  rewrite pickFormat_spec.
  assert (Hex : existsb (Z.eqb V4L2_PIX_FMT_YUYV) (map fst (GetSupportedFormats d)) = true).
  { apply existsb_exists. exists V4L2_PIX_FMT_YUYV. split; [exact Hin | apply Z.eqb_refl]. }
  rewrite Hex. cbn [Z.eqb V4L2_PIX_FMT_YUYV].
  fold V4L2_PIX_FMT_YUYV.
  destruct (lastSize _) as [size|].
  - destruct Hlast as [Hs Hmax]. split.
    + split.
      * destruct (SetImageFormat d _ _ _) as [[[f w] h]|msg]; [|discriminate].
        destruct (StartStreaming d); discriminate.
      * intros Hnil. rewrite Hnil in Hs. contradiction.
    + intros c.
      destruct (SetImageFormat d _ _ _) as [[[f w] h]|msg] eqn:Hset; [|discriminate].
      destruct (StartStreaming d); [|discriminate].
      cbn [negb]. intros H. injection H as <-. split; [reflexivity|].
      exists size, f. repeat split; assumption.
  - split; [split; [intros _; exact Hlast | reflexivity] | discriminate].
Qed.

Lemma largest_frame_size_is_picked_witness :
  NewUSBCamera
    {| Open := true;
       GetSupportedFormats := [(V4L2_PIX_FMT_PJPG, "Motion-JPEG");
                               (V4L2_PIX_FMT_YUYV, "YUYV 4:2:2")];
       GetSupportedFrameSizes := fun _ => [];
       sort_Sort := fun l => l;
       SetImageFormat := fun f w h => Ok (f, w, h);
       StartStreaming := true |} = None.
Proof.
  apply (largest_frame_size_is_picked
           {| Open := true;
              GetSupportedFormats := [(V4L2_PIX_FMT_PJPG, "Motion-JPEG");
                                      (V4L2_PIX_FMT_YUYV, "YUYV 4:2:2")];
              GetSupportedFrameSizes := fun _ => [];
              sort_Sort := fun l => l;
              SetImageFormat := fun f w h => Ok (f, w, h);
              StartStreaming := true |} eq_refl).
  - right. now left.
  - split; [apply Permutation_refl | constructor].
  - reflexivity.
Defined.

(** *** Slices *)

Lemma update_length (s : list byte) (n : nat) (v : byte) :
  List.length (update s n v) = List.length s.
Proof.
  revert n. induction s as [|x s IH]; intros [|n]; cbn; try reflexivity.
  now rewrite IH.
Qed.

Lemma nth_error_update (s : list byte) (n k : nat) (v : byte) :
  (n < List.length s)%nat ->
  nth_error (update s n v) k = if (k =? n)%nat then Some v else nth_error s k.
Proof.
  revert n k. induction s as [|x s IH]; intros n k Hn; cbn in Hn; [lia|].
  destruct n as [|n], k as [|k]; cbn; try reflexivity.
  apply IH. lia.
Qed.

Lemma load_Some_lt (s : list byte) (i : Z) (b : byte) :
  load s i = Some b -> 0 <= i < len s.
Proof.
  unfold load, len. destruct (Z.ltb_spec i 0) as [|Hi]; [discriminate|].
  intros H. assert (Hlt : (Z.to_nat i < List.length s)%nat).
  { apply nth_error_Some. congruence. }
  lia.
Qed.

Lemma load_Some_ex (s : list byte) (i : Z) :
  0 <= i < len s -> exists b, load s i = Some b.
Proof.
  unfold load, len. intros Hi. destruct (Z.ltb_spec i 0) as [|_]; [lia|].
  destruct (nth_error s (Z.to_nat i)) as [b|] eqn:Hn; [now exists b|].
  apply nth_error_None in Hn. lia.
Qed.

Lemma store_Some (s : list byte) (i : Z) (v : byte) (s' : list byte) :
  store s i v = Some s' ->
  0 <= i < len s /\ len s' = len s /\
  forall k, load s' k = if k =? i then Some v else load s k.
Proof.
  unfold store, len.
  destruct (Z.leb_spec 0 i) as [Hi|]; [|discriminate].
  destruct (Z.ltb_spec i (Z.of_nat (List.length s))) as [Hlt|]; [|discriminate].
  cbn [andb]. intros H. injection H as <-.
  split; [lia|]. split; [now rewrite update_length|].
  intros k. unfold load. destruct (Z.ltb_spec k 0) as [Hk|Hk].
  - destruct (Z.eqb_spec k i); [lia | reflexivity].
  - rewrite nth_error_update by lia.
    destruct (Z.eqb_spec k i) as [->|Hne].
    + now rewrite Nat.eqb_refl.
    + destruct (Nat.eqb_spec (Z.to_nat k) (Z.to_nat i)); [lia | reflexivity].
Qed.

Lemma store_Some_ex (s : list byte) (i : Z) (v : byte) :
  0 <= i < len s -> exists s', store s i v = Some s'.
Proof.
  unfold store, len. intros Hi.
  destruct (Z.leb_spec 0 i); [|lia].
  destruct (Z.ltb_spec i (Z.of_nat (List.length s))); [|lia].
  eexists. reflexivity.
Qed.

(** *** The loop of [encodeToImage] *)

(** A round that does not panic was within the planes and the frame. *)
Lemma fillStep_Some (frame : list byte) (img img' : YCbCr) (i : Z) :
  fillStep frame img i = Some img' ->
  (0 <= i /\ i * 2 + 1 < len (Y img) /\ i < len (Cb img) /\ i < len (Cr img) /\
   i * 4 + 3 < len frame) /\
  len (Y img') = len (Y img) /\ len (Cb img') = len (Cb img) /\
  len (Cr img') = len (Cr img) /\ Dx img' = Dx img /\ Dy img' = Dy img /\
  (forall k, load (Y img') k =
             if k =? i * 2 + 1 then load frame (i * 4 + 2)
             else if k =? i * 2 then load frame (i * 4)
             else load (Y img) k) /\
  (forall k, load (Cb img') k =
             if k =? i then load frame (i * 4 + 1) else load (Cb img) k) /\
  (forall k, load (Cr img') k =
             if k =? i then load frame (i * 4 + 3) else load (Cr img) k).
Proof.
  unfold fillStep.
  destruct (load frame (i * 4)) as [b0|] eqn:L0; [|discriminate].
  destruct (store (Y img) (i * 2) b0) as [y1|] eqn:S0; [|discriminate].
  destruct (load frame (i * 4 + 2)) as [b2|] eqn:L2; [|discriminate].
  destruct (store y1 (i * 2 + 1) b2) as [y2|] eqn:S2; [|discriminate].
  destruct (load frame (i * 4 + 1)) as [b1|] eqn:L1; [|discriminate].
  destruct (store (Cb img) i b1) as [cb|] eqn:S1; [|discriminate].
  destruct (load frame (i * 4 + 3)) as [b3|] eqn:L3; [|discriminate].
  destruct (store (Cr img) i b3) as [cr|] eqn:S3; [|discriminate].
  intros H. injection H as <-. cbn [Y Cb Cr Dx Dy].
  apply load_Some_lt in L3 as HL3.
  apply store_Some in S0 as (H0 & E0 & P0).
  apply store_Some in S2 as (H2 & E2 & P2).
  apply store_Some in S1 as (H1 & E1 & P1).
  apply store_Some in S3 as (H3 & E3 & P3).
  repeat split; try lia.
  - intros k. rewrite P2, P0. reflexivity.
  - intros k. rewrite P1. reflexivity.
  - intros k. rewrite P3. reflexivity.
Qed.

(** Within the planes and the frame a round does not panic. *)
Lemma fillStep_Some_ex (frame : list byte) (img : YCbCr) (i : Z) :
  0 <= i -> i * 2 + 1 < len (Y img) -> i < len (Cb img) -> i < len (Cr img) ->
  i * 4 + 3 < len frame ->
  exists img', fillStep frame img i = Some img'.
Proof.
  intros Hi HY HCb HCr Hf. unfold fillStep.
  destruct (load_Some_ex frame (i * 4)) as [b0 ->]; [lia|].
  destruct (store (Y img) (i * 2) b0) as [y1|] eqn:S0.
  2:{ destruct (store_Some_ex (Y img) (i * 2) b0) as [? ?]; [lia | congruence]. }
  apply store_Some in S0 as (_ & E0 & _).
  destruct (load_Some_ex frame (i * 4 + 2)) as [b2 ->]; [lia|].
  destruct (store_Some_ex y1 (i * 2 + 1) b2) as [y2 ->]; [lia|].
  destruct (load_Some_ex frame (i * 4 + 1)) as [b1 ->]; [lia|].
  destruct (store_Some_ex (Cb img) i b1) as [cb ->]; [lia|].
  destruct (load_Some_ex frame (i * 4 + 3)) as [b3 ->]; [lia|].
  destruct (store_Some_ex (Cr img) i b3) as [cr ->]; [lia|].
  eexists. reflexivity.
Qed.

(** The loop from round [i] on, [n] rounds: it does not panic exactly when
    all its rounds are within the planes and the frame, and then it has
    moved the bytes of these rounds and no others. *)
Lemma fill_spec (frame : list byte) (n : nat) :
  forall (img : YCbCr) (i : Z),
    0 <= i ->
    match fill frame img i n with
    | None =>
        (0 < n)%nat /\
        ~ ((i + Z.of_nat n) * 2 <= len (Y img) /\ i + Z.of_nat n <= len (Cb img) /\
           i + Z.of_nat n <= len (Cr img) /\ (i + Z.of_nat n) * 4 <= len frame)
    | Some img' =>
        (n = 0%nat \/
         ((i + Z.of_nat n) * 2 <= len (Y img) /\ i + Z.of_nat n <= len (Cb img) /\
          i + Z.of_nat n <= len (Cr img) /\ (i + Z.of_nat n) * 4 <= len frame)) /\
        len (Y img') = len (Y img) /\ len (Cb img') = len (Cb img) /\
        len (Cr img') = len (Cr img) /\ Dx img' = Dx img /\ Dy img' = Dy img /\
        (forall k, load (Y img') k =
                   if (i * 2 <=? k) && (k <? (i + Z.of_nat n) * 2)
                   then load frame (k * 2) else load (Y img) k) /\
        (forall k, load (Cb img') k =
                   if (i <=? k) && (k <? i + Z.of_nat n)
                   then load frame (k * 4 + 1) else load (Cb img) k) /\
        (forall k, load (Cr img') k =
                   if (i <=? k) && (k <? i + Z.of_nat n)
                   then load frame (k * 4 + 3) else load (Cr img) k)
    end.
Proof.
  induction n as [|n IH]; intros img i Hi.
  - cbn [fill]. split; [now left|]. repeat split; try reflexivity.
    + intros k. destruct (Z.leb_spec (i * 2) k), (Z.ltb_spec k ((i + Z.of_nat 0) * 2));
        cbn [andb]; try reflexivity; lia.
    + intros k. destruct (Z.leb_spec i k), (Z.ltb_spec k (i + Z.of_nat 0));
        cbn [andb]; try reflexivity; lia.
    + intros k. destruct (Z.leb_spec i k), (Z.ltb_spec k (i + Z.of_nat 0));
        cbn [andb]; try reflexivity; lia.
  - cbn [fill]. destruct (fillStep frame img i) as [img1|] eqn:Hstep.
    + apply fillStep_Some in Hstep
        as (Hb & EY & ECb & ECr & EDx & EDy & PY & PCb & PCr).
      specialize (IH img1 (i + 1) ltac:(lia)).
      destruct (fill frame img1 (i + 1) n) as [img'|].
      * destruct IH as (Hn & EY' & ECb' & ECr' & EDx' & EDy' & PY' & PCb' & PCr').
        split; [right; destruct Hn as [->|Hn]; lia|].
        repeat split; try congruence.
        -- intros k. rewrite PY', PY.
           destruct (Z.leb_spec ((i + 1) * 2) k), (Z.ltb_spec k ((i + 1 + Z.of_nat n) * 2)),
                    (Z.leb_spec (i * 2) k), (Z.ltb_spec k ((i + Z.of_nat (S n)) * 2)),
                    (Z.eqb_spec k (i * 2 + 1)), (Z.eqb_spec k (i * 2));
             cbn [andb]; try reflexivity; try lia; subst k; f_equal; lia.
        -- intros k. rewrite PCb', PCb.
           destruct (Z.leb_spec (i + 1) k), (Z.ltb_spec k (i + 1 + Z.of_nat n)),
                    (Z.leb_spec i k), (Z.ltb_spec k (i + Z.of_nat (S n))),
                    (Z.eqb_spec k i);
             cbn [andb]; try reflexivity; try lia; subst k; reflexivity.
        -- intros k. rewrite PCr', PCr.
           destruct (Z.leb_spec (i + 1) k), (Z.ltb_spec k (i + 1 + Z.of_nat n)),
                    (Z.leb_spec i k), (Z.ltb_spec k (i + Z.of_nat (S n))),
                    (Z.eqb_spec k i);
             cbn [andb]; try reflexivity; try lia; subst k; reflexivity.
      * destruct IH as (Hn & Hnot). split; [lia|].
        intros H. apply Hnot. lia.
    + split; [lia|]. intros (HY & HCb & HCr & Hf).
      destruct (fillStep_Some_ex frame img i) as [img1 H1]; try lia. congruence.
Qed.

(** *** The picture *)

Lemma mul3NonNeg_small (x y z : Z) :
  0 <= x <= 2 -> 0 <= y <= 65536 -> 0 <= z <= 65535 ->
  mul3NonNeg x y z = x * y * z.
Proof.
  intros Hx Hy Hz.
  assert (0 <= x * y <= 131072) by nia.
  assert (0 <= x * y * z <= 131072 * 65535) by nia.
  unfold mul3NonNeg, maxInt.
  destruct (Z.ltb_spec x 0), (Z.ltb_spec y 0), (Z.ltb_spec z 0); try lia.
  cbn [orb].
  destruct (Z.leb_spec (2 ^ 64) (x * y)); [lia|].
  destruct (Z.leb_spec (2 ^ 64) (x * y * z)); [lia|].
  destruct (Z.ltb_spec (2 ^ 63 - 1) (x * y * z)); [lia | reflexivity].
Qed.

(** The width of the chroma planes is half the width, rounded up. *)
Lemma chroma_width (w : Z) :
  0 <= w ->
  (Z.even w = true /\ Z.odd w = false /\ 2 * Z.quot (w + 1) 2 = w) \/
  (Z.even w = false /\ Z.odd w = true /\ 2 * Z.quot (w + 1) 2 = w + 1).
Proof.
  intros Hw. rewrite Z.quot_div_nonneg by lia.
  rewrite <- Z.negb_even. destruct (Z.even w) eqn:E; [left | right].
  - apply Z.even_spec in E as [m ->]. repeat split.
    Z.to_euclidean_division_equations. lia.
  - assert (O : Z.odd w = true) by (rewrite <- Z.negb_even, E; reflexivity).
    apply Z.odd_spec in O as [m ->]. repeat split.
    Z.to_euclidean_division_equations. lia.
Qed.

Lemma NewYCbCr_small (w h : Z) :
  0 <= w <= 65535 -> 0 <= h <= 65535 ->
  exists yuyv,
    NewYCbCr w h = Some yuyv /\
    len (Y yuyv) = w * h /\
    len (Cb yuyv) = Z.quot (w + 1) 2 * h /\
    len (Cr yuyv) = Z.quot (w + 1) 2 * h /\
    Dx yuyv = w /\ Dy yuyv = h.
Proof.
  intros Hw Hh. unfold NewYCbCr.
  rewrite !Z.min_l, !Z.max_r by lia.
  replace (Z.quot 0 2) with 0 by reflexivity. rewrite !Z.sub_0_r.
  assert (Hcw : 0 <= Z.quot (w + 1) 2 <= 32768).
  { destruct (chroma_width w) as [(_ & _ & H)|(_ & _ & H)]; lia. }
  rewrite !mul3NonNeg_small by lia.
  assert (0 <= w * h <= 65535 * 65535) by nia.
  assert (0 <= Z.quot (w + 1) 2 * h <= 32768 * 65535) by nia.
  unfold add2NonNeg, maxInt.
  destruct (Z.ltb_spec (1 * w * h) 0); [lia|].
  destruct (Z.ltb_spec (2 * Z.quot (w + 1) 2 * h) 0); [lia|].
  cbn [orb].
  destruct (Z.ltb_spec (2 ^ 63 - 1) (1 * w * h + 2 * Z.quot (w + 1) 2 * h)); [lia|].
  destruct (Z.ltb_spec (1 * w * h + 2 * Z.quot (w + 1) 2 * h) 0); [lia|].
  eexists. split; [reflexivity|].
  unfold len. cbn [Y Cb Cr Dx Dy]. rewrite !repeat_length.
  repeat split; lia.
Qed.

(** What [encodeToImage] comes to for a picture the encoder can take. *)
Lemma encodeToImage_cases (jpegEncode : YCbCr -> result (list byte))
      (c : usbcamera) (frame : list byte) :
  0 <= imageWidth c <= 65535 -> 0 <= imageHeight c <= 65535 ->
  match encodeToImage jpegEncode c frame with
  | None =>
      0 < imageWidth c * imageHeight c /\
      (Z.odd (imageWidth c) = true \/
       len frame < 2 * (imageWidth c * imageHeight c))
  | Some r =>
      (imageWidth c * imageHeight c = 0 \/
       (Z.even (imageWidth c) = true /\
        2 * (imageWidth c * imageHeight c) <= len frame)) /\
      exists img,
        r = match jpegEncode img with
            | Err _ => Err "failed to encode jpeg"
            | Ok buf => Ok buf
            end /\
        Dx img = imageWidth c /\ Dy img = imageHeight c /\
        len (Y img) = imageWidth c * imageHeight c /\
        len (Cb img) = len (Cr img) /\
        (Z.even (imageWidth c) = true ->
         2 * len (Cb img) = imageWidth c * imageHeight c) /\
        (forall k, 0 <= k < 2 * len (Cb img) ->
                   load (Y img) k = load frame (k * 2)) /\
        (forall k, 0 <= k < len (Cb img) ->
                   load (Cb img) k = load frame (k * 4 + 1) /\
                   load (Cr img) k = load frame (k * 4 + 3))
  end.
Proof.
  intros Hw Hh. unfold encodeToImage.
  destruct (NewYCbCr_small _ _ Hw Hh) as (yuyv & -> & EY & ECb & ECr & EDx & EDy).
  set (w := imageWidth c) in *. set (h := imageHeight c) in *.
  set (cw := Z.quot (w + 1) 2) in *.
  assert (Hcw : (Z.even w = true /\ Z.odd w = false /\ 2 * cw = w) \/
                (Z.even w = false /\ Z.odd w = true /\ 2 * cw = w + 1))
    by (apply chroma_width; lia).
  assert (Hn : Z.of_nat (List.length (Cb yuyv)) = cw * h) by exact ECb.
  pose proof (fill_spec frame (List.length (Cb yuyv)) yuyv 0 ltac:(lia)) as Hfill.
  rewrite Hn, EY, ECb, ECr in Hfill.
  destruct (fill frame yuyv 0 (List.length (Cb yuyv))) as [img|].
  - destruct Hfill as (Hc & EY' & ECb' & ECr' & EDx' & EDy' & PY & PCb & PCr).
    replace (match jpegEncode img with
             | Ok buf => Some (Ok buf)
             | Err _ => Some (Err "failed to encode jpeg")
             end)
      with (Some match jpegEncode img with
                 | Err _ => Err "failed to encode jpeg"
                 | Ok buf => Ok buf
                 end)
      by (destruct (jpegEncode img); reflexivity).
    split.
    + destruct Hc as [H0|Hc].
      * left. assert (cw * h = 0) by lia.
        destruct Hcw as [(_ & _ & E)|(_ & _ & E)]; nia.
      * destruct Hcw as [(Ev & _ & E)|(_ & _ & E)].
        -- right. split; [exact Ev|]. nia.
        -- destruct (Z.eq_dec h 0) as [->|]; [left; lia|]. exfalso. nia.
    + exists img. split; [reflexivity|].
      rewrite ECb', ECr', EY', EDx', EDy', EDx, EDy.
      repeat split; try reflexivity.
      * intros Ev. destruct Hcw as [(_ & _ & E)|(Ev' & _)]; [nia | congruence].
      * intros k Hk. rewrite PY.
        destruct (Z.leb_spec (0 * 2) k), (Z.ltb_spec k ((0 + cw * h) * 2));
          cbn [andb]; try reflexivity; lia.
      * rewrite PCb.
        destruct (Z.leb_spec 0 k), (Z.ltb_spec k (0 + cw * h));
          cbn [andb]; try reflexivity; lia.
      * rewrite PCr.
        destruct (Z.leb_spec 0 k), (Z.ltb_spec k (0 + cw * h));
          cbn [andb]; try reflexivity; lia.
  - destruct Hfill as (Hpos & Hnot).
    assert (0 < cw * h) by lia.
    assert (0 < h) by nia. assert (0 < cw) by nia.
    split; [destruct Hcw as [(_ & _ & E)|(_ & _ & E)]; nia|].
    destruct Hcw as [(_ & _ & E)|(_ & Od & _)]; [|now left].
    right. destruct (Z.lt_ge_cases (len frame) (2 * (w * h))) as [|Hge]; [assumption|].
    exfalso. apply Hnot. nia.
Qed.

(** X20: a YUYV frame of an even width is split into the planes of the
    picture handed to the JPEG encoder: every second byte is a luma sample,
    [Y[k] = frame[2k]], and of each four bytes the second is the blue and the
    fourth the red chroma sample, [Cb[k] = frame[4k+1]] and
    [Cr[k] = frame[4k+3]]; bytes of the frame past [2 * width * height] are
    ignored.  The answer is what the encoder makes of that picture. *)
Theorem yuyv_frame_split_into_planes (jpegEncode : YCbCr -> result (list byte))
        (c : usbcamera) (frame : list byte) :
  0 <= imageWidth c <= 65535 -> 0 <= imageHeight c <= 65535 ->
  Z.even (imageWidth c) = true ->
  2 * (imageWidth c * imageHeight c) <= len frame ->
  exists img,
    encodeToImage jpegEncode c frame =
      Some match jpegEncode img with
           | Err _ => Err "failed to encode jpeg"
           | Ok buf => Ok buf
           end /\
    Dx img = imageWidth c /\ Dy img = imageHeight c /\
    len (Y img) = imageWidth c * imageHeight c /\
    2 * len (Cb img) = imageWidth c * imageHeight c /\
    2 * len (Cr img) = imageWidth c * imageHeight c /\
    (forall k, 0 <= k < imageWidth c * imageHeight c ->
               load (Y img) k = load frame (k * 2)) /\
    (forall k, 0 <= 2 * k < imageWidth c * imageHeight c ->
               load (Cb img) k = load frame (k * 4 + 1) /\
               load (Cr img) k = load frame (k * 4 + 3)).
Proof.
  intros Hw Hh Ev Hlen.
  pose proof (encodeToImage_cases jpegEncode c frame Hw Hh) as H.
  destruct (encodeToImage jpegEncode c frame) as [r|].
  - destruct H as (_ & img & -> & EDx & EDy & EY & ECb & Ehalf & PY & PC).
    specialize (Ehalf Ev).
    exists img. repeat split; try assumption; try lia.
    + intros k Hk. apply PY. lia.
    + apply PC. lia.
    + apply PC. lia.
  - destruct H as (_ & [Od|Hshort]); [|lia].
    rewrite <- Z.negb_even, Ev in Od. discriminate.
Qed.

Lemma yuyv_frame_split_into_planes_witness :
  exists img,
    encodeToImage (fun img => Ok (Y img ++ Cb img ++ Cr img)%list)
      {| imageWidth := 2; imageHeight := 1; frame := None |}
      [x01; x02; x03; x04; x05]%byte =
      Some (Ok (Y img ++ Cb img ++ Cr img)%list) /\
    load (Y img) 0 = Some x01%byte /\ load (Y img) 1 = Some x03%byte /\
    load (Cb img) 0 = Some x02%byte /\ load (Cr img) 0 = Some x04%byte.
Proof.
  destruct (yuyv_frame_split_into_planes
              (fun img => Ok (Y img ++ Cb img ++ Cr img)%list)
              {| imageWidth := 2; imageHeight := 1; frame := None |}
              [x01; x02; x03; x04; x05]%byte)
    as (img & Henc & _ & _ & _ & _ & _ & PY & PC).
  - cbn. lia.
  - cbn. lia.
  - reflexivity.
  - cbn. lia.
  - exists img. split; [exact Henc|].
    split; [exact (PY 0 ltac:(cbn; lia))|].
    split; [exact (PY 1 ltac:(cbn; lia))|].
    exact (PC 0 ltac:(cbn; lia)).
Defined.

(** X21: for a picture the encoder can take, [encodeToImage] panics with
    an index out of range exactly when the picture is not empty and either
    its width is odd or the frame has fewer than [2 * width * height]
    bytes. *)
Theorem encode_panics_on_odd_width_or_short_frame
        (jpegEncode : YCbCr -> result (list byte))
        (c : usbcamera) (frame : list byte) :
  0 <= imageWidth c <= 65535 -> 0 <= imageHeight c <= 65535 ->
  (encodeToImage jpegEncode c frame = None <->
   0 < imageWidth c * imageHeight c /\
   (Z.odd (imageWidth c) = true \/
    len frame < 2 * (imageWidth c * imageHeight c))).
Proof.
  intros Hw Hh.
  pose proof (encodeToImage_cases jpegEncode c frame Hw Hh) as H.
  destruct (encodeToImage jpegEncode c frame) as [r|].
  - split; [discriminate|]. intros (Hpos & Hbad).
    destruct H as ([H0|(Ev & Hlen)] & _); [lia|].
    destruct Hbad as [Od|Hshort]; [|lia].
    rewrite <- Z.negb_even, Ev in Od. discriminate.
  - split; [intros _; exact H | reflexivity].
Qed.

Lemma encode_panics_on_odd_width_or_short_frame_witness :
  encodeToImage (fun img => Ok (Y img))
    {| imageWidth := 3; imageHeight := 1; frame := None |}
    [x01; x02; x03; x04; x05; x06; x07; x08]%byte = None.
Proof.
  apply (encode_panics_on_odd_width_or_short_frame
           (fun img => Ok (Y img))
           {| imageWidth := 3; imageHeight := 1; frame := None |}
           [x01; x02; x03; x04; x05; x06; x07; x08]%byte).
  - cbn. lia.
  - cbn. lia.
  - split; [reflexivity | left; reflexivity].
Defined.

(** X22: before the first frame has been read [Snapshot] answers with an
    error, but a round of [Stream], which encodes without looking, panics
    unless the picture is empty.  Once [handleCamera] has read a frame both
    encode that frame; a failed wait or read leaves the frame as it was. *)
Theorem stream_panics_before_first_frame
        (jpegEncode : YCbCr -> result (list byte)) (c : usbcamera) :
  frame c = None ->
  0 < imageWidth c <= 65535 -> 0 < imageHeight c <= 65535 ->
  Snapshot jpegEncode c = Some (Err "frame not yet available") /\
  streamEncode jpegEncode c = None /\
  (forall waitOk msg,
     handleCamera false (Err msg) c = c /\
     handleCamera waitOk (Err msg) c = c /\
     (forall f, handleCamera false (Ok f) c = c)) /\
  (forall f,
     Snapshot jpegEncode (handleCamera true (Ok f) c) =
       encodeToImage jpegEncode c f /\
     streamEncode jpegEncode (handleCamera true (Ok f) c) =
       encodeToImage jpegEncode c f).
Proof.
  intros Hnil Hw Hh. unfold Snapshot, streamEncode. rewrite Hnil.
  split; [reflexivity|]. split; [|split].
  - pose proof (encodeToImage_cases jpegEncode c [] ltac:(lia) ltac:(lia)) as H.
    destruct (encodeToImage jpegEncode c []) as [r|]; [|reflexivity].
    destruct H as ([H0|(_ & Hlen)] & _); [nia|].
    change (len []) with 0 in Hlen. nia.
  - intros waitOk msg. repeat split. destruct waitOk; reflexivity.
  - intros f. split; reflexivity.
Qed.

Lemma stream_panics_before_first_frame_witness :
  streamEncode (fun img => Ok (Y img))
    {| imageWidth := 640; imageHeight := 480; frame := None |} = None.
Proof.
  apply (stream_panics_before_first_frame
           (fun img => Ok (Y img))
           {| imageWidth := 640; imageHeight := 480; frame := None |} eq_refl);
    cbn; lia.
Defined.

End UsbProps.

(** ** Runs and the next tick *)

Module RunProps.
Import prusalinkclient camera MachineProps.

(** X23: no run of ticks and snapshots leaves the service in a state that
    blocks the next transition.  After every run, an idle service that meets
    the conditions of a start starts the session, the lock being free; a
    service with a session holds its record, and when it meets the conditions
    of an end it ends the session. *)
Theorem next_transition_never_blocked (tmpDir : string) (ops : list op) (e : Env) :
  (tlRunning (run tmpDir ops newWorld) = false ->
   forall st st' dir,
     startable e st st' dir ->
     handleTimelapse e (run tmpDir ops newWorld) =
       Done tt (afterStart e st' dir (run tmpDir ops newWorld))) /\
  (tlRunning (run tmpDir ops newWorld) = true ->
   exists tl,
     svc_timelapse (run tmpDir ops newWorld) = Some tl /\
     forall st files f id,
       finishable e tl st files f id ->
       exists cps,
         onlyCp cps /\
         handleTimelapse e (run tmpDir ops newWorld) =
           Done tt (afterFinish tl (len files) id cps (run tmpDir ops newWorld))).
Proof.
  pose proof (run_sound tmpDir ops newWorld newWorld_sound) as Hw.
  destruct Hw as [Hs [Hm _ _ _ _ _] _].
  split.
  - intros Hrun st st' dir Hst.
    now apply TickProps.start_when_startable with (st := st).
  - intros Hrun.
    destruct (svc_timelapse (run tmpDir ops newWorld)) as [tl|] eqn:Htl.
    + exists tl. split; [reflexivity|]. intros st files f id Hf.
      apply (TickProps.finish_when_finishable e _ tl st files f id); assumption.
    + exfalso. apply Hs in Hrun. now apply Hrun.
Qed.

End RunProps.

(** ** The names of the videos *)

Module NameProps.
Import prusalinkclient camera.

Lemma formatBits_app (fuel : nat) :
  forall (u : Z) (acc s : string),
    formatBits fuel u acc ++ s = formatBits fuel u (acc ++ s).
Proof.
  induction fuel as [|fuel IH]; intros u acc s; cbn [formatBits]; [reflexivity|].
  destruct (u <? 10); [reflexivity|]. now rewrite IH.
Qed.

(** Numbers of the same number of digits are written in the order of
    their values; equal numbers leave the order to what follows. *)
Lemma formatBits_compare (k : nat) :
  forall (fuel : nat) (u v : Z) (acc1 acc2 : string),
    (k < fuel)%nat ->
    10 ^ Z.of_nat k <= u < 10 ^ (Z.of_nat k + 1) ->
    10 ^ Z.of_nat k <= v < 10 ^ (Z.of_nat k + 1) ->
    (u < v ->
     String.compare (formatBits fuel u acc1) (formatBits fuel v acc2) = Lt) /\
    (u = v ->
     String.compare (formatBits fuel u acc1) (formatBits fuel v acc2) =
       String.compare acc1 acc2).
Proof.
  induction k as [|k IH]; intros fuel u v acc1 acc2 Hfuel Hu Hv.
  - destruct fuel as [|fuel]; [lia|]. cbn [formatBits].
    change (10 ^ Z.of_nat 0) with 1 in *. change (10 ^ (Z.of_nat 0 + 1)) with 10 in *.
    destruct (Z.ltb_spec u 10); [|lia]. destruct (Z.ltb_spec v 10); [|lia].
    cbn [String.compare]. rewrite FormatProps.digit_compare by lia.
    split.
    + intros Hlt. apply Z.compare_lt_iff in Hlt. now rewrite Hlt.
    + intros ->. now rewrite Z.compare_refl.
  - destruct fuel as [|fuel]; [lia|]. cbn [formatBits].
    replace (Z.of_nat (S k)) with (Z.of_nat k + 1) in * by lia.
    rewrite (Z.pow_add_r 10 (Z.of_nat k + 1) 1) in * by lia.
    rewrite (Z.pow_add_r 10 (Z.of_nat k) 1) in * by lia.
    change (10 ^ 1) with 10 in *.
    assert (Hp : 0 < 10 ^ Z.of_nat k) by (apply Z.pow_pos_nonneg; lia).
    set (p := 10 ^ Z.of_nat k) in *.
    destruct (Z.ltb_spec u 10); [lia|]. destruct (Z.ltb_spec v 10); [lia|].
    assert (Hu' : p * 10 <= u / 10 * 10 + u mod 10 < p * 10 * 10)
      by (rewrite (Z.mul_comm (u / 10)), <- Z.div_mod by lia; lia).
    assert (Hv' : p * 10 <= v / 10 * 10 + v mod 10 < p * 10 * 10)
      by (rewrite (Z.mul_comm (v / 10)), <- Z.div_mod by lia; lia).
    pose proof (FormatProps.digit_bound u) as Du.
    pose proof (FormatProps.digit_bound v) as Dv.
    destruct (IH fuel (u / 10) (v / 10)
                (String (digitChar (u mod 10)) acc1)
                (String (digitChar (v mod 10)) acc2))
      as [Hlt Heq]; [lia | subst p; lia | subst p; lia |].
    split.
    + intros Huv.
      destruct (Z.lt_trichotomy (u / 10) (v / 10)) as [H1|[H1|H1]].
      * now apply Hlt.
      * rewrite (Heq H1). cbn [String.compare].
        rewrite FormatProps.digit_compare by lia.
        assert (H2 : u mod 10 < v mod 10).
        { rewrite (Z.div_mod u 10), (Z.div_mod v 10) in Huv by lia. lia. }
        apply Z.compare_lt_iff in H2. now rewrite H2.
      * exfalso. rewrite (Z.div_mod u 10), (Z.div_mod v 10) in Huv by lia. lia.
    + intros ->. rewrite (Heq eq_refl). cbn [String.compare].
      now rewrite FormatProps.ascii_compare_refl.
Qed.

(** X24: the names of the videos sort by the time of their making, as the
    listing of the output directory shows them: of two videos made at times
    of the same number of decimal digits (ten digits from 2001 to 2286) the
    earlier one has the smaller name, whatever the names and numbers of the
    jobs. *)
Theorem video_names_sort_by_time (k : nat) (t1 t2 : Z) (tl1 tl2 : timelapse) :
  (k < 19)%nat ->
  10 ^ Z.of_nat k <= t1 -> t1 < t2 -> t2 < 10 ^ (Z.of_nat k + 1) ->
  String.ltb (videoName t1 tl1) (videoName t2 tl2) = true.
Proof.
  intros Hk H1 Hlt H2. unfold String.ltb, videoName.
  change ("t" ++ Itoa t1 ++ "-" ++ jobName_ tl1 ++ "-" ++ Itoa (jobID tl1) ++ ".mp4")
    with (String "t" (Itoa t1 ++ "-" ++ jobName_ tl1 ++ "-" ++ Itoa (jobID tl1) ++ ".mp4")).
  change ("t" ++ Itoa t2 ++ "-" ++ jobName_ tl2 ++ "-" ++ Itoa (jobID tl2) ++ ".mp4")
    with (String "t" (Itoa t2 ++ "-" ++ jobName_ tl2 ++ "-" ++ Itoa (jobID tl2) ++ ".mp4")).
  cbn [String.compare]. rewrite FormatProps.ascii_compare_refl.
  assert (Hpos : 0 < 10 ^ Z.of_nat k) by (apply Z.pow_pos_nonneg; lia).
  unfold Itoa at 1 3.
  destruct (Z.ltb_spec t1 0); [lia|]. destruct (Z.ltb_spec t2 0); [lia|].
  rewrite !formatBits_app.
  destruct (formatBits_compare k 20 t1 t2
              (EmptyString ++ "-" ++ jobName_ tl1 ++ "-" ++ Itoa (jobID tl1) ++ ".mp4")
              (EmptyString ++ "-" ++ jobName_ tl2 ++ "-" ++ Itoa (jobID tl2) ++ ".mp4"))
    as [Hcmp _]; [lia | lia | lia |].
  now rewrite (Hcmp Hlt).
Qed.

Lemma video_names_sort_by_time_witness :
  String.ltb
    (videoName 1700000000
       {| currentDir := "/tmp/timelapse18"; startTime := 0; jobID := 18;
          jobName_ := "zebra.gcode"; timelapseCommand := 0%nat |})
    (videoName 1700003600
       {| currentDir := "/tmp/timelapse17"; startTime := 0; jobID := 17;
          jobName_ := "bracket.gcode"; timelapseCommand := 1%nat |}) = true.
Proof.
  apply (video_names_sort_by_time 9); [lia | cbn; lia | lia | cbn; lia].
Defined.

End NameProps.

(** ** The loop of the sender *)

Module SenderProps.
Import prusalinkclient camera service.

(** A round leaves the status client as [JobStatus] left it, and sends a
    frame only on an online answer. *)
Lemma senderRound_state (tmpDir : string) (pe : pollEnv) (se : sendEnv) (s : svcState) :
  cachedTime (svcLink s) <= nowLookup pe ->
  svcLink (state_of (senderRound tmpDir pe se s)) =
    snd (fst (JobStatus (svcLink s) pe)) /\
  (List.length (svcPuts (state_of (senderRound tmpDir pe se s)))
   <= List.length (svcPuts s) +
      if match jobStatus (http pe) with
         | Ok st => Online st
         | Err _ => false
         end then 1 else 0)%nat /\
  (match jobStatus (http pe) with
   | Ok st => Online st
   | Err _ => false
   end = false ->
   svcCam (state_of (senderRound tmpDir pe se s)) = svcCam s /\
   svcPuts (state_of (senderRound tmpDir pe se s)) = svcPuts s).
Proof.
  intros Hc. unfold senderRound.
  destruct (CacheProps.JobStatus_always_asks _ pe Hc) as [_ ->].
  destruct (jobStatus (http pe)) as [st|msg].
  - destruct (Online st); cbn [negb].
    + set (s1 := withLink _ s).
      assert (Hp : svcPuts s1 = svcPuts s) by reflexivity.
      assert (Hl : svcLink s1 = snd (fst (JobStatus (svcLink s) pe))) by reflexivity.
      rewrite <- Hl, <- Hp.
      split; [|split; [|discriminate]];
        unfold sendSnapshot, Snapshot;
        destruct (camera.Snapshot tmpDir (camEnv se) (svcCam s1)) as [[frame|m] w|w|w];
        cbn; try reflexivity; try lia;
        destruct (put se frame); cbn; try reflexivity; lia.
    + cbn. repeat split; lia.
  - cbn. repeat split; lia.
Qed.

(** X25: the loop of the sender on a clock that does not go back.  It
    sends at most one frame for each round in which the printer answered
    online; and as long as no round gets an online answer, it leaves the
    camera untouched and sends nothing. *)
Theorem sender_sends_one_frame_per_online_round
        (tmpDir : string) (rounds : list (pollEnv * sendEnv)) (s : svcState) (t0 : Z) :
  cachedTime (svcLink s) <= t0 ->
  clockFrom t0 (map fst rounds) ->
  (List.length (svcPuts (prusaConnectSender tmpDir rounds s))
   <= List.length (svcPuts s) +
      List.length
        (filter (fun r => match jobStatus (http (fst r)) with
                          | Ok st => Online st
                          | Err _ => false
                          end) rounds))%nat /\
  (forallb (fun r => negb match jobStatus (http (fst r)) with
                          | Ok st => Online st
                          | Err _ => false
                          end) rounds = true ->
   svcCam (prusaConnectSender tmpDir rounds s) = svcCam s /\
   svcPuts (prusaConnectSender tmpDir rounds s) = svcPuts s).
Proof.
  revert s t0. induction rounds as [|[pe se] rounds IH]; intros s t0 Hc Hclock.
  - cbn. split; [lia | now split].
  - cbn [map fst] in Hclock. destruct Hclock as (H0 & H1 & Hrest).
    assert (Hle : cachedTime (svcLink s) <= nowLookup pe) by lia.
    destruct (senderRound_state tmpDir pe se s Hle) as (Hlink & Hlen & Hoff).
    pose proof (PollProps.JobStatus_cachedTime (svcLink s) pe Hle H1) as Hc1.
    rewrite <- Hlink in Hc1.
    cbn [prusaConnectSender filter forallb fst].
    destruct (senderRound tmpDir pe se s) as [[] s'|s'|s']; cbn [state_of] in *.
    + destruct (IH s' (nowStore pe) Hc1 Hrest) as [IHlen IHoff].
      split.
      * destruct (match jobStatus (http pe) with Ok st => Online st | Err _ => false end);
          cbn [List.length] in *; lia.
      * intros Hall. apply andb_prop in Hall as [Hthis Hall].
        apply negb_true_iff in Hthis.
        destruct (Hoff Hthis) as [Hcam Hputs]. destruct (IHoff Hall) as [Hcam' Hputs'].
        split; congruence.
    + split.
      * destruct (match jobStatus (http pe) with Ok st => Online st | Err _ => false end);
          cbn [List.length] in *; lia.
      * intros Hall. apply andb_prop in Hall as [Hthis _].
        apply negb_true_iff in Hthis. exact (Hoff Hthis).
    + split.
      * destruct (match jobStatus (http pe) with Ok st => Online st | Err _ => false end);
          cbn [List.length] in *; lia.
      * intros Hall. apply andb_prop in Hall as [Hthis _].
        apply negb_true_iff in Hthis. exact (Hoff Hthis).
Qed.

Lemma sender_sends_one_frame_per_online_round_witness :
  svcPuts (prusaConnectSender "/tmp/cam"
             [(timedOutPoll,
               {| camEnv := sampleEnv (Ok idle) [] [];
                  put := fun _ => PutResponse 204 true |});
              ({| nowLookup := 130 * second; http := Response 500 (Err "EOF");
                  nowStore := 130 * second |},
               {| camEnv := sampleEnv (Ok idle) [] [];
                  put := fun _ => PutResponse 204 true |})]
             NewService) = [].
Proof.
  apply (sender_sends_one_frame_per_online_round "/tmp/cam" _ NewService 0).
  - cbn. lia.
  - cbn. unfold second. lia.
  - reflexivity.
Defined.

End SenderProps.

(** ** Panics of the poll loop *)

Module CrashProps.
Import prusalinkclient camera MachineProps.

(** X26: the scan for the last shot looks at the last entry of the
    listing and at no other.  It returns that entry, joined to the directory,
    with the length of the whole listing when the entry is a [.jpg] file; it
    panics when the listing ends with anything else, whatever shots come
    before; it returns an error for an empty listing or a directory that
    cannot be read.  It changes nothing and never runs on. *)
Theorem scan_looks_at_last_entry_only (e : Env) (dir : string) (w : World) :
  lastTLShotInternal e dir w =
    match readDir e dir with
    | Err _ => Done (Err "fail to read timelapse dir") w
    | Ok files =>
        match rev files with
        | [] => Done (Err "no timelapse shots found") w
        | f :: _ =>
            if isShot f
            then Done (Ok (filepath_Join dir (Name f), len files)) w
            else Panicked w
        end
    end.
Proof.
  unfold lastTLShotInternal.
  destruct (readDir e dir) as [files|msg]; [|reflexivity].
  induction files as [|f pre _] using rev_ind; [reflexivity|].
  rewrite PipelineProps.scanShots_last, rev_app_distr. cbn [rev app].
  destruct (isShot f); reflexivity.
Qed.

(** What a tick that does not return has met. *)
Lemma tick_abnormal (e : Env) (w : World) :
  rpicamMutex w = false -> session_inv w ->
  match handleTimelapse e w with
  | Done _ _ => True
  | Panicked w' =>
      tlRunning w = true /\
      exists st tl pre f,
        poll e = Ok st /\ timelapseShouldStop (State st) = true /\
        svc_timelapse w = Some tl /\
        readDir e (currentDir tl) = Ok (pre ++ [f])%list /\ isShot f = false /\
        w' = withTrace (EvExit (timelapseCommand tl) :: trace w) w
  | Hung w' =>
      tlRunning w = false /\ w' = w /\
      exists st dir,
        poll e = Ok st /\ Online st = true /\
        timelapseShouldStart (State st) = true /\
        mkdirTemp e ("timelapse" ++ Itoa (JobID st)) = Ok dir /\
        waitForProgress st (waitEvents e) = StillWaiting
  end.
Proof.
  intros Hm Hinv. unfold handleTimelapse.
  destruct (poll e) as [st|msg] eqn:Hpoll; [|exact I].
  unfold bind at 1, getRunning. destruct (tlRunning w) eqn:Hrun; cbn [negb].
  - destruct (timelapseShouldStop (State st)) eqn:Hstop; [|exact I].
    unfold finishTimelapse, bind at 1, getSession.
    destruct (svc_timelapse w) as [tl|] eqn:Htl.
    2:{ exfalso. unfold session_inv in Hinv. rewrite Hrun, Htl in Hinv.
        now apply (proj1 Hinv eq_refl). }
    unfold bind at 1, emit.
    fold (withTrace (EvExit (timelapseCommand tl) :: trace w) w).
    unfold bind at 1, lastTLShotInternal.
    destruct (readDir e (currentDir tl)) as [files|msg] eqn:Hdir; [|exact I].
    induction files as [|f pre _] using rev_ind; [exact I|].
    rewrite PipelineProps.scanShots_last.
    destruct (isShot f) eqn:Hshot.
    + unfold ret at 1.
      destruct (getShotID e _) as [id|msg]; [|exact I].
      destruct (TickProps.takeLastShot_returns e (currentDir tl) id
                  (Z.quot (len (pre ++ [f])) 10)
                  (withTrace (EvExit (timelapseCommand tl) :: trace w) w) Hm)
        as (r & cps & _ & Htake).
      unfold bind at 1. rewrite Htake. exact I.
    + split; [reflexivity|]. exists st, tl, pre, f. repeat split; assumption.
  - destruct (Online st) eqn:Hon; cbn [negb]; [|exact I].
    destruct (timelapseShouldStart (State st)) eqn:Hstart; [|exact I].
    unfold startTimelapse.
    destruct (mkdirTemp e _) as [dir|msg] eqn:Hdir; [|exact I].
    destruct (waitForProgress st (waitEvents e)) as [st'| |] eqn:Hwait.
    + destruct w as [running tl mutex pid t]. cbn [rpicamMutex] in Hm. subst mutex.
      exec. destruct (cmdStart e); exec; exact I.
    + exact I.
    + split; [reflexivity|]. split; [reflexivity|].
      exists st, dir. repeat split; assumption.
Qed.

(** X27: when the poll loop dies.  From a state in which flag and record
    agree and the lock is free, a tick panics exactly when a session is
    running, the printer is in a stopping state and the listing of the
    session's directory ends with an entry that is no [.jpg] file; the
    capture process has then been stopped and the session is kept.  A tick
    never returns exactly when no session runs, a start is due, and the
    status polled in the wait loop never shows progress. *)
Theorem tick_panics_only_on_foreign_last_entry (e : Env) (w : World) :
  rpicamMutex w = false -> session_inv w ->
  ((exists w', handleTimelapse e w = Panicked w') <->
   tlRunning w = true /\
   exists st tl pre f,
     poll e = Ok st /\ timelapseShouldStop (State st) = true /\
     svc_timelapse w = Some tl /\
     readDir e (currentDir tl) = Ok (pre ++ [f])%list /\ isShot f = false /\
     handleTimelapse e w =
       Panicked (withTrace (EvExit (timelapseCommand tl) :: trace w) w)) /\
  ((exists w', handleTimelapse e w = Hung w') <->
   tlRunning w = false /\
   exists st dir,
     poll e = Ok st /\ Online st = true /\
     timelapseShouldStart (State st) = true /\
     mkdirTemp e ("timelapse" ++ Itoa (JobID st)) = Ok dir /\
     waitForProgress st (waitEvents e) = StillWaiting).
Proof.
  intros Hm Hinv. pose proof (tick_abnormal e w Hm Hinv) as H.
  split; split.
  - intros [w' Hp]. rewrite Hp in H.
    destruct H as (Hrun & st & tl & pre & f & H1 & H2 & H3 & H4 & H5 & ->).
    split; [exact Hrun|]. exists st, tl, pre, f. repeat split; assumption.
  - intros (_ & st & tl & pre & f & _ & _ & _ & _ & _ & Hp). eexists. exact Hp.
  - intros [w' Hp]. rewrite Hp in H. destruct H as (Hrun & _ & Hrest).
    split; assumption.
  - intros (Hrun & st & dir & Hpoll & Hon & Hstart & Hdir & Hwait).
    exists w. unfold handleTimelapse. rewrite Hpoll.
    unfold bind at 1, getRunning. rewrite Hrun. cbn [negb]. rewrite Hon, Hstart.
    cbn [negb]. unfold startTimelapse. rewrite Hdir, Hwait. reflexivity.
Qed.

Lemma tick_panics_only_on_foreign_last_entry_witness :
  exists w',
    handleTimelapse (sampleEnv (Ok finished) [frame 0; notes] []) startedWorld =
      Panicked w'.
Proof.
  assert (Hinv : session_inv startedWorld).
  { split; [discriminate | reflexivity]. }
  apply (proj1 (tick_panics_only_on_foreign_last_entry
                  (sampleEnv (Ok finished) [frame 0; notes] []) startedWorld
                  eq_refl Hinv)).
  split; [reflexivity|].
  exists finished,
         {| currentDir := "/tmp/timelapse17"; startTime := 1000 * second;
            jobID := 17; jobName_ := "bracket.gcode"; timelapseCommand := 0%nat |},
         [frame 0], notes.
  split; [reflexivity|]. split; [reflexivity|]. split; [reflexivity|].
  split; [reflexivity|]. split; reflexivity.
Defined.

End CrashProps.
